(** * publication-doi: the parser and the DOI resolver of [streamlit_app.py]

    A shallow embedding of the functions of [src/streamlit_app.py] that carry
    the logic of the tool: [clean_text_for_comparison], [search_crossref_doi],
    [extract_publications] and [create_doi_url], together with the parts of
    Python's [re], [str], [difflib] and [json] that they call.

    Conventions.
    - A Python [str] is a list of characters; a character is a code point
      below 256 (Latin-1), which an [ascii] holds exactly.  The character
      classes below are Python's own on that range ([str.isspace], the
      classes [\s], [\w], [\d] of a [str] pattern, [str.lower]).
    - Indices, lengths and counts are [nat]; a slice [s[a:b]] is [slice a b s].
    - An operation that can raise returns a [result]; [try]/[except] is
      [try_except]. *)

From Stdlib Require Import Ascii String List Bool Arith NArith ZArith QArith Lia.
From Stdlib Require Import DecimalString.
Import ListNotations.

Set Implicit Arguments.
Open Scope string_scope.
Open Scope bool_scope.
Open Scope nat_scope.
Open Scope list_scope.

(** ** Python strings *)

Definition str := list ascii.

Definition lit (x : string) : str := list_ascii_of_string x.
Coercion lit : string >-> str.

(** The double quote and the newline, by code point. *)
Definition dquote : ascii := ascii_of_nat 34.
Definition newline : ascii := ascii_of_nat 10.

Module Str.

Definition code (c : ascii) : N := N_of_ascii c.

Definition between (lo hi : N) (c : ascii) : bool :=
  (lo <=? code c)%N && (code c <=? hi)%N.

(** [str.isspace] on one character: TAB..CR, FS..US, space, NEL, NBSP. *)
Definition isspace (c : ascii) : bool :=
  between 9 13 c || between 28 32 c || (code c =? 133)%N || (code c =? 160)%N.

(** [\d] of a [str] pattern: the decimal digits (category Nd). *)
Definition isdecimal (c : ascii) : bool := between 48 57 c.

Definition isupper (c : ascii) : bool :=
  between 65 90 c || between 192 214 c || between 216 222 c.

(** Alphanumeric in the sense of [\w]: letters, decimal digits, other
    digits (superscripts) and numerics (vulgar fractions). *)
Definition isalnum (c : ascii) : bool :=
  isdecimal c || between 65 90 c || between 97 122 c
  || (code c =? 170)%N || (code c =? 178)%N || (code c =? 179)%N
  || (code c =? 181)%N || (code c =? 185)%N || (code c =? 186)%N
  || between 188 190 c || between 192 214 c || between 216 246 c
  || between 248 255 c.

(** [\w] of a [str] pattern. *)
Definition isword (c : ascii) : bool := isalnum c || (code c =? 95)%N.

Definition lower_char (c : ascii) : ascii :=
  if isupper c then ascii_of_N (code c + 32) else c.

(** [s.lower()].  Below code point 256 it maps every character to one
    character of that range; further up it need not (U+0130 gives two
    code points), which this model does not cover. *)
Definition lower (s : str) : str := map lower_char s.

Fixpoint lstrip_by (p : ascii -> bool) (s : str) : str :=
  match s with
  | [] => []
  | c :: tl => if p c then lstrip_by p tl else s
  end.

Definition rstrip_by (p : ascii -> bool) (s : str) : str :=
  rev (lstrip_by p (rev s)).

Definition strip_by (p : ascii -> bool) (s : str) : str :=
  rstrip_by p (lstrip_by p s).

Definition one_of (chars : str) (c : ascii) : bool :=
  existsb (Ascii.eqb c) chars.

(** [s.strip()], [s.strip(chars)], [s.rstrip(chars)] *)
Definition strip (s : str) : str := strip_by isspace s.
Definition strip_chars (chars s : str) : str := strip_by (one_of chars) s.
Definition rstrip_chars (chars s : str) : str := rstrip_by (one_of chars) s.

(** [s.replace(old, new)] for one-character [old] and [new]. *)
Definition replace_char (old new : ascii) (s : str) : str :=
  map (fun c => if Ascii.eqb c old then new else c) s.

(** [s[a:b]] for [0 <= a], [0 <= b]: empty when [b <= a]. *)
Definition slice (a b : nat) (s : str) : str := firstn (b - a) (skipn a s).

(** [s[a:]] *)
Definition slice_from (a : nat) (s : str) : str := skipn a s.

Fixpoint startswith (prefix s : str) : bool :=
  match prefix, s with
  | [], _ => true
  | _ :: _, [] => false
  | p :: ps, c :: cs => Ascii.eqb c p && startswith ps cs
  end.

Fixpoint eqb (s t : str) : bool :=
  match s, t with
  | [], [] => true
  | c :: cs, d :: ds => Ascii.eqb c d && eqb cs ds
  | _, _ => false
  end.

(** Truth value of a string: non-empty. *)
Definition truthy (s : str) : bool :=
  match s with [] => false | _ :: _ => true end.

End Str.

(** ** Regular expressions: the fragment of [re] the program uses

    A backtracking matcher in continuation-passing style, as [sre] works:
    greedy repetition tries one more iteration first and falls back to the
    continuation; a look-ahead is atomic and consumes nothing.  The patterns
    of the program have no anchors, look-behinds or back-references, so a
    search that resumes inside a string may be run on the remaining suffix. *)

Module Re.

Inductive regex : Type :=
| Eps                              (* the empty pattern *)
| Chr (p : ascii -> bool)          (* one character of a class *)
| Seq (r1 r2 : regex)              (* r1 r2 *)
| Star (r : regex)                 (* r*, greedy *)
| Group (n : nat) (r : regex)      (* capturing group number n *)
| Ahead (r : regex).               (* (?=r) *)

Definition Plus (r : regex) : regex := Seq r (Star r).

Fixpoint Rep (n : nat) (r : regex) : regex :=
  match n with
  | 0 => Eps
  | S n' => Seq r (Rep n' r)
  end.

Definition Lit (c : ascii) : regex := Chr (Ascii.eqb c).

(** Matcher state: position, text still to read, spans of the groups. *)
Record mstate : Type := MState {
  m_pos : nat;
  m_rest : str;
  m_caps : list (nat * (nat * nat))
}.

Definition set_cap (n a b : nat) (st : mstate) : mstate :=
  MState (m_pos st) (m_rest st) ((n, (a, b)) :: m_caps st).

(** Greedy repetition of [body]: first one more iteration, which must
    consume something, then the rest of the pattern; failing that, the
    rest of the pattern at once.  [fuel] bounds the iterations by the
    length of the text left. *)
Fixpoint star_loop (body : mstate -> (mstate -> option mstate) -> option mstate)
  (k : mstate -> option mstate) (fuel : nat) (st : mstate) {struct fuel}
  : option mstate :=
  match fuel with
  | 0 => k st
  | S fuel' =>
      match body st (fun st1 =>
               if m_pos st <? m_pos st1 then star_loop body k fuel' st1 else None) with
      | Some res => Some res
      | None => k st
      end
  end.

Fixpoint run (r : regex) (st : mstate) (k : mstate -> option mstate)
  {struct r} : option mstate :=
  match r with
  | Eps => k st
  | Chr p =>
      match m_rest st with
      | c :: tl => if p c then k (MState (S (m_pos st)) tl (m_caps st)) else None
      | [] => None
      end
  | Seq r1 r2 => run r1 st (fun st1 => run r2 st1 k)
  | Star r0 => star_loop (run r0) k (length (m_rest st)) st
  | Group n r0 => run r0 st (fun st1 => k (set_cap n (m_pos st) (m_pos st1) st1))
  | Ahead r0 =>
      match run r0 st (fun st1 => Some st1) with
      | Some st1 => k (MState (m_pos st) (m_rest st) (m_caps st1))
      | None => None
      end
  end.

(** A match object: [m.start()], [m.end()], and the group spans. *)
Record match_obj : Type := Match {
  m_start : nat;
  m_end : nat;
  m_groups : list (nat * (nat * nat))
}.

(** One attempt at position [p], where [s] is the text from [p] on.  With
    [must_advance] an empty match is refused and the matcher backtracks. *)
Definition match_here (r : regex) (p : nat) (s : str) (must_advance : bool)
  : option match_obj :=
  match run r (MState p s [])
          (fun st => if must_advance && (m_pos st =? p) then None else Some st) with
  | Some st => Some (Match p (m_pos st) (m_caps st))
  | None => None
  end.

(** [sre]'s search: try the start position, then every later one up to
    the end of the text; [must_advance] only binds the first attempt. *)
Fixpoint search_at (r : regex) (p : nat) (s : str) (must_advance : bool)
  : option match_obj :=
  match match_here r p s must_advance with
  | Some m => Some m
  | None =>
      match s with
      | [] => None
      | _ :: tl => search_at r (S p) tl false
      end
  end.

(** [re.match(r, s)] and [re.search(r, s)] *)
Definition match_ (r : regex) (s : str) : option match_obj := match_here r 0 s false.
Definition search (r : regex) (s : str) : option match_obj := search_at r 0 s false.

Fixpoint span (n : nat) (caps : list (nat * (nat * nat))) : nat * nat :=
  match caps with
  | [] => (0, 0)
  | (i, ab) :: tl => if i =? n then ab else span n tl
  end.

(** [m.group(n)] for a group that took part in the match of [s]. *)
Definition group (n : nat) (m : match_obj) (s : str) : str :=
  let ab := span n (m_groups m) in Str.slice (fst ab) (snd ab) s.

(** [re.sub(r, repl, s)] for a literal replacement: copy the text before
    each match, then the replacement, and resume at the end of the match;
    after an empty match the next one must advance. *)
Fixpoint sub_loop (fuel : nat) (r : regex) (repl s : str) (must_advance : bool) : str :=
  match fuel with
  | 0 => s
  | S fuel' =>
      match search_at r 0 s must_advance with
      | None => s
      | Some m =>
          firstn (m_start m) s ++ repl
            ++ sub_loop fuel' r repl (skipn (m_end m) s) (m_end m =? m_start m)
      end
  end.

Definition sub (r : regex) (repl s : str) : str :=
  sub_loop (2 * length s + 2) r repl s false.

(** [re.split(r, s)] for a pattern without groups (Python 3.7 and later,
    where empty matches split too). *)
Fixpoint split_loop (fuel : nat) (r : regex) (s : str) (must_advance : bool) : list str :=
  match fuel with
  | 0 => [s]
  | S fuel' =>
      match search_at r 0 s must_advance with
      | None => [s]
      | Some m =>
          firstn (m_start m) s
            :: split_loop fuel' r (skipn (m_end m) s) (m_end m =? m_start m)
      end
  end.

Definition split (r : regex) (s : str) : list str :=
  split_loop (2 * length s + 2) r s false.

End Re.

(** ** [difflib.SequenceMatcher], as [SequenceMatcher(None, a, b)] builds it

    [isjunk] is [None] and [autojunk] is [True]: no element is junk, and in a
    second sequence of 200 elements or more the elements that occur more
    than [n // 100 + 1] times are "popular" and leave [b2j]. *)

Module Difflib.

(** [b2j]: for each element of [b], the ascending indices where it occurs.
    A dict in insertion order, kept as an association list. *)
Definition b2j_t := list (ascii * list nat).

(** [b2j.setdefault(elt, []).append(i)] *)
Fixpoint setdefault_append (elt : ascii) (i : nat) (d : b2j_t) : b2j_t :=
  match d with
  | [] => [(elt, [i])]
  | (e, idxs) :: tl =>
      if Ascii.eqb e elt then (e, idxs ++ [i]) :: tl
      else (e, idxs) :: setdefault_append elt i tl
  end.

(** The loop [for i, elt in enumerate(b)], from index [i] on. *)
Fixpoint index_all (i : nat) (b : str) (d : b2j_t) : b2j_t :=
  match b with
  | [] => d
  | elt :: tl => index_all (S i) tl (setdefault_append elt i d)
  end.

Definition is_popular (ntest : nat) (entry : ascii * list nat) : bool :=
  ntest <? length (snd entry).

(** [__chain_b]: the index, then the purge of the popular elements. *)
Definition chain_b (b : str) : b2j_t :=
  let b2j := index_all 0 b [] in
  let n := length b in
  if 200 <=? n then
    let ntest := n / 100 + 1 in
    filter (fun entry => negb (is_popular ntest entry)) b2j
  else b2j.

(** [b2j.get(elt, nothing)] *)
Fixpoint b2j_get (d : b2j_t) (elt : ascii) : list nat :=
  match d with
  | [] => []
  | (e, idxs) :: tl => if Ascii.eqb e elt then idxs else b2j_get tl elt
  end.

(** [j2len]: a dict from an index of [b] to a length. *)
Definition j2len_t := list (nat * nat).

Fixpoint j2len_get (d : j2len_t) (j : nat) : nat :=
  match d with
  | [] => 0
  | (j', k) :: tl => if j' =? j then k else j2len_get tl j
  end.

(** [j2len.get(j-1, 0)]: index [-1] is never a key. *)
Definition j2len_get_pred (d : j2len_t) (j : nat) : nat :=
  match j with
  | 0 => 0
  | S j' => j2len_get d j'
  end.

(** A block [(i, j, k)]: [a[i:i+k] == b[j:j+k]]. *)
Definition block := (nat * nat * nat)%type.
Definition size (x : block) : nat := snd x.

(** [isbjunk]: membership in the junk set, which is empty. *)
Definition isbjunk (c : option ascii) : bool := false.

Definition same (x y : option ascii) : bool :=
  match x, y with
  | Some c, Some d => Ascii.eqb c d
  | _, _ => false
  end.

Section Matcher.

Variables a b : str.
Variable b2j : b2j_t.

(** The loop [for j in b2j.get(a[i], nothing)] of one row [i]. *)
Fixpoint row (i blo bhi : nat) (j2len : j2len_t) (js : list nat)
  (newj2len : j2len_t) (best : block) : j2len_t * block :=
  match js with
  | [] => (newj2len, best)
  | j :: js' =>
      if j <? blo then row i blo bhi j2len js' newj2len best
      else if bhi <=? j then (newj2len, best)
      else
        let k := j2len_get_pred j2len j + 1 in
        let newj2len := (j, k) :: newj2len in
        let best := if size best <? k then (i + 1 - k, j + 1 - k, k) else best in
        row i blo bhi j2len js' newj2len best
  end.

(** The loop [for i in range(alo, ahi)], with [n] rows left from [i]. *)
Fixpoint rows (n i blo bhi : nat) (j2len : j2len_t) (best : block) : block :=
  match n with
  | 0 => best
  | S n' =>
      let js := match nth_error a i with
                | Some elt => b2j_get b2j elt
                | None => []
                end in
      let '(newj2len, best) := row i blo bhi j2len js [] best in
      rows n' (S i) blo bhi newj2len best
  end.

(** The [while] that grows the block to the left; [junk] selects the
    pass (first the elements that are not junk, then the junk ones). *)
Fixpoint extend_left (junk : bool) (alo blo besti bestj bestsize : nat) : block :=
  match besti with
  | 0 => (besti, bestj, bestsize)
  | S besti' =>
      if (alo <? besti) && (blo <? bestj)
         && Bool.eqb (isbjunk (nth_error b (bestj - 1))) junk
         && same (nth_error a besti') (nth_error b (bestj - 1))
      then extend_left junk alo blo besti' (bestj - 1) (bestsize + 1)
      else (besti, bestj, bestsize)
  end.

(** The [while] that grows the block to the right; [fuel] is the room
    left in [a], [ahi - (besti + bestsize)], which each turn uses up. *)
Fixpoint extend_right (fuel : nat) (junk : bool) (ahi bhi besti bestj bestsize : nat)
  : block :=
  match fuel with
  | 0 => (besti, bestj, bestsize)
  | S fuel' =>
      if (besti + bestsize <? ahi) && (bestj + bestsize <? bhi)
         && Bool.eqb (isbjunk (nth_error b (bestj + bestsize))) junk
         && same (nth_error a (besti + bestsize)) (nth_error b (bestj + bestsize))
      then extend_right fuel' junk ahi bhi besti bestj (bestsize + 1)
      else (besti, bestj, bestsize)
  end.

Definition extend (junk : bool) (alo ahi blo bhi : nat) (best : block) : block :=
  let '(besti, bestj, bestsize) := best in
  let '(besti, bestj, bestsize) := extend_left junk alo blo besti bestj bestsize in
  extend_right (ahi - (besti + bestsize)) junk ahi bhi besti bestj bestsize.

Definition find_longest_match (alo ahi blo bhi : nat) : block :=
  let best := rows (ahi - alo) alo blo bhi [] (alo, blo, 0) in
  let best := extend false alo ahi blo bhi best in
  extend true alo ahi blo bhi best.

(** The [while queue] loop of [get_matching_blocks].  The queue is a
    stack: its last element, which [pop] takes, is the head here. *)
Fixpoint blocks_loop (fuel : nat) (queue : list (nat * nat * nat * nat))
  (matching_blocks : list block) : list block :=
  match fuel with
  | 0 => matching_blocks
  | S fuel' =>
      match queue with
      | [] => matching_blocks
      | (alo, ahi, blo, bhi) :: queue =>
          let x := find_longest_match alo ahi blo bhi in
          let '(i, j, k) := x in
          if 0 <? k then
            let matching_blocks := matching_blocks ++ [x] in
            let queue := if (alo <? i) && (blo <? j)
                         then (alo, i, blo, j) :: queue else queue in
            let queue := if (i + k <? ahi) && (j + k <? bhi)
                         then (i + k, ahi, j + k, bhi) :: queue else queue in
            blocks_loop fuel' queue matching_blocks
          else blocks_loop fuel' queue matching_blocks
      end
  end.

End Matcher.

(** Tuple order, for [matching_blocks.sort()]. *)
Definition block_leb (x y : block) : bool :=
  let '(i1, j1, k1) := x in
  let '(i2, j2, k2) := y in
  (i1 <? i2) || ((i1 =? i2) && ((j1 <? j2) || ((j1 =? j2) && (k1 <=? k2)))).

Fixpoint insert_block (x : block) (l : list block) : list block :=
  match l with
  | [] => [x]
  | y :: tl => if block_leb x y then x :: l else y :: insert_block x tl
  end.

Definition sort_blocks (l : list block) : list block :=
  fold_right insert_block [] l.

(** One turn of the loop that merges adjacent blocks. *)
Definition collapse_step (st : block * list block) (x2 : block) : block * list block :=
  let '((i1, j1, k1), non_adjacent) := st in
  let '(i2, j2, k2) := x2 in
  if (i1 + k1 =? i2) && (j1 + k1 =? j2) then ((i1, j1, k1 + k2), non_adjacent)
  else ((i2, j2, k2), if 0 <? k1 then non_adjacent ++ [(i1, j1, k1)] else non_adjacent).

Definition get_matching_blocks (a b : str) : list block :=
  let la := length a in
  let lb := length b in
  let b2j := chain_b b in
  let matching_blocks :=
    sort_blocks (blocks_loop a b b2j (2 * la + 1) [(0, la, 0, lb)] []) in
  let '((i1, j1, k1), non_adjacent) :=
    fold_left collapse_step matching_blocks ((0, 0, 0), []) in
  let non_adjacent :=
    if 0 <? k1 then non_adjacent ++ [(i1, j1, k1)] else non_adjacent in
  non_adjacent ++ [(la, lb, 0)].

(** [_calculate_ratio]: the quotient [2.0 * matches / length] is kept as
    the exact fraction.  Python rounds it to a double; two such quotients,
    or one and a literal such as [0.85] or [1.0], compare the same way as
    the fractions as long as [length] stays below [2^49]. *)
Definition calculate_ratio (matches length : nat) : Q :=
  if 0 <? length
  then Qmake (Z.of_nat (2 * matches)) (Pos.of_nat length)
  else 1%Q.

Definition matches (a b : str) : nat :=
  fold_left (fun acc triple => acc + size triple) (get_matching_blocks a b) 0.

(** [SequenceMatcher(None, a, b).ratio()] *)
Definition ratio (a b : str) : Q :=
  calculate_ratio (matches a b) (length a + length b).

End Difflib.

(** ** Python values and exceptions

    What [response.json()] returns: [None], booleans, integers, floats,
    strings, lists and dicts with string keys.  A float is kept by its
    [repr] text (its only uses here are [str] and its truth value); a dict
    is the list of its items in insertion order, and its keys are distinct. *)

Module Py.

Inductive exn : Type :=
| KeyError
| TypeError
| IndexError
| AttributeError
| ValueError           (* [response.json()] on a body that is not JSON *)
| RequestException.    (* [requests.get] failing at the network level *)

Inductive result (A : Type) : Type :=
| Ok (x : A)
| Raise (e : exn).
Arguments Ok {A} x.
Arguments Raise {A} e.

Definition bind {A B : Type} (m : result A) (f : A -> result B) : result B :=
  match m with
  | Ok x => f x
  | Raise e => Raise e
  end.

(** [try: body / except Exception as e: handler e] *)
Definition try_except {A : Type} (body : result A) (handler : exn -> A) : A :=
  match body with
  | Ok x => x
  | Raise e => handler e
  end.

#[warnings="-register-all"]
Inductive json : Type :=
| JNull
| JBool (b : bool)
| JInt (z : Z)
| JFloat (repr : str)
| JStr (s : str)
| JArr (l : list json)
| JObj (items : list (str * json)).

Fixpoint lookup (k : str) (items : list (str * json)) : option json :=
  match items with
  | [] => None
  | (k', v) :: tl => if Str.eqb k' k then Some v else lookup k tl
  end.

(** Truth value, as [if v] and [not v] test it. *)
Definition truthy (v : json) : bool :=
  match v with
  | JNull => false
  | JBool b => b
  | JInt z => negb (z =? 0)%Z
  | JFloat r => negb (Str.eqb r "0.0" || Str.eqb r "-0.0")
  | JStr s => Str.truthy s
  | JArr l => match l with [] => false | _ => true end
  | JObj kv => match kv with [] => false | _ => true end
  end.

(** [v[k]] for a string key [k]. *)
Definition getitem (v : json) (k : str) : result json :=
  match v with
  | JObj kv => match lookup k kv with Some x => Ok x | None => Raise KeyError end
  | _ => Raise TypeError
  end.

(** [v[0]] *)
Definition getitem0 (v : json) : result json :=
  match v with
  | JArr l => match l with x :: _ => Ok x | [] => Raise IndexError end
  | JStr s => match s with c :: _ => Ok (JStr [c]) | [] => Raise IndexError end
  | JObj _ => Raise KeyError
  | _ => Raise TypeError
  end.

Fixpoint is_substring (k s : str) : bool :=
  Str.startswith k s || match s with [] => false | _ :: tl => is_substring k tl end.

Definition is_str (k : str) (v : json) : bool :=
  match v with JStr s => Str.eqb s k | _ => false end.

(** [k in v] for a string [k]. *)
Definition contains (k : str) (v : json) : result bool :=
  match v with
  | JObj kv => Ok (match lookup k kv with Some _ => true | None => false end)
  | JArr l => Ok (existsb (is_str k) l)
  | JStr s => Ok (is_substring k s)
  | _ => Raise TypeError
  end.

(** [v.get(k, default)]: a method of dicts only. *)
Definition get (v : json) (k : str) (default : json) : result json :=
  match v with
  | JObj kv => Ok (match lookup k kv with Some x => x | None => default end)
  | _ => Raise AttributeError
  end.

(** The elements [for x in v] visits. *)
Definition iterate (v : json) : result (list json) :=
  match v with
  | JArr l => Ok l
  | JObj kv => Ok (map (fun item => JStr (fst item)) kv)
  | JStr s => Ok (map (fun c => JStr [c]) s)
  | _ => Raise TypeError
  end.

Definition hex_digit (n : N) : ascii :=
  nth (N.to_nat n) (lit "0123456789abcdef") "0"%char.

Definition isprintable (c : ascii) : bool :=
  Str.between 32 126 c || (Str.between 161 255 c && negb (Str.code c =? 173)%N).

Definition repr_char (quote c : ascii) : str :=
  if Ascii.eqb c quote || Ascii.eqb c "\" then ["\"%char; c]
  else if (Str.code c =? 9)%N then lit "\t"
  else if (Str.code c =? 10)%N then lit "\n"
  else if (Str.code c =? 13)%N then lit "\r"
  else if isprintable c then [c]
  else lit "\x" ++ [hex_digit (Str.code c / 16); hex_digit (Str.code c mod 16)].

(** [repr(s)] of a string: single quotes unless [s] has one and no
    double quote. *)
Definition repr_str (s : str) : str :=
  let quote := if existsb (Ascii.eqb "'") s && negb (existsb (Ascii.eqb dquote) s)
               then dquote else "'"%char in
  quote :: flat_map (repr_char quote) s ++ [quote].

Fixpoint join (sep : str) (l : list str) : str :=
  match l with
  | [] => []
  | [x] => x
  | x :: tl => x ++ sep ++ join sep tl
  end.

Definition str_of_Z (z : Z) : str :=
  lit (DecimalString.NilEmpty.string_of_int (Z.to_int z)).

Fixpoint repr (v : json) : str :=
  match v with
  | JNull => lit "None"
  | JBool b => if b then lit "True" else lit "False"
  | JInt z => str_of_Z z
  | JFloat r => r
  | JStr s => repr_str s
  | JArr l => lit "[" ++ join ", " (map repr l) ++ lit "]"
  | JObj kv =>
      lit "{"
        ++ join ", " (map (fun item => match item with
                                    | (k, x) => repr_str k ++ lit ": " ++ repr x
                                    end) kv)
        ++ lit "}"
  end.

(** [str(v)] *)
Definition str_ (v : json) : str :=
  match v with
  | JStr s => s
  | _ => repr v
  end.

End Py.

(** ** [streamlit_app.py] *)

Import Re.

(** [[^\w\s-]] *)
Definition re_not_word_space_hyphen : regex :=
  Chr (fun c => negb (Str.isword c || Str.isspace c || Ascii.eqb c "-")).

(** [\s+] *)
Definition re_spaces : regex := Plus (Chr Str.isspace).

Definition clean_text_for_comparison (text : str) : str :=
  let text := Re.sub re_not_word_space_hyphen " " text in
  let text := Re.sub re_spaces " " text in
  Str.strip (Str.lower text).

(** [\d{4}\s*-\s*], with the digits in group 1 when [grouped]. *)
Definition re_year_marker (grouped : bool) : regex :=
  let digits := Rep 4 (Chr Str.isdecimal) in
  Seq (if grouped then Group 1 digits else digits)
      (Seq (Star (Chr Str.isspace)) (Seq (Lit "-") (Star (Chr Str.isspace)))).

(** The look-ahead on the year marker, [(?= \d{4}\s*-\s* )]. *)
Definition re_entry_start : regex := Ahead (re_year_marker false).

(** A double quote, one or more characters other than a double quote
    (group 1), a double quote. *)
Definition re_quoted : regex :=
  Seq (Lit dquote)
      (Seq (Group 1 (Plus (Chr (fun c => negb (Ascii.eqb c dquote))))) (Lit dquote)).

(** One publication: the dict with keys 'Year', 'Authors', 'Title', 'Venue'. *)
Record publication : Type := Publication {
  Year : str;
  Authors : str;
  Title : str;
  Venue : str
}.

(** The body of the [for entry in entries] loop: [publications] after the
    iteration.  No operation of the body raises on a [str], so the [except]
    branch (a warning, then [continue]) is never taken. *)
Definition extract_step (publications : list publication) (entry : str)
  : list publication :=
  let entry := Str.strip entry in
  if negb (Str.truthy entry) then publications
  else
    match Re.match_ (re_year_marker true) entry with
    | None => publications
    | Some year_match =>
        let year := Re.group 1 year_match entry in
        match Re.search re_quoted entry with
        | None => publications
        | Some title_match =>
            let title := Str.strip (Re.group 1 title_match entry) in
            let start_pos := m_end year_match in
            let end_pos := m_start title_match in
            let authors :=
              Str.rstrip_chars "." (Str.strip (Str.slice start_pos end_pos entry)) in
            let venue :=
              Str.strip_chars "." (Str.strip (Str.slice_from (m_end title_match) entry)) in
            publications ++ [Publication year authors title venue]
        end
    end.

Definition extract_publications (text : str) : list publication :=
  let entries := Re.split re_entry_start text in
  fold_left extract_step entries [].

Definition create_doi_url (doi : str) : str :=
  if Str.truthy doi && Str.startswith "10." doi
  then lit "https://doi.org/" ++ doi
  else "".


(** *** The DOI resolver *)

Import Py.

Notation "x <- m ;; f" := (Py.bind m (fun x => f))
  (at level 61, m at next level, right associativity).

(** The query parameters of the request. *)
Record params : Type := Params {
  query_title : str;
  rows : nat;
  select : str
}.

(** What [requests.get] does: it raises, or it returns a response with a
    status code and a body that [response.json()] decodes or fails on. *)
Inductive reply : Type :=
| Failed (e : exn)
| Response (status_code : Z) (body : option json).

Definition response_json (body : option json) : result json :=
  match body with
  | Some v => Ok v
  | None => Raise ValueError
  end.

(** A diagnostic shown with [st.warning]. *)
Inductive warning : Type :=
| ErrorSearchingDOI (e : exn).

(** What the body of [for result in ...] does next. *)
Inductive flow : Type :=
| Continue
| Return (v : json).

(** [similarity > 0.85] *)
Definition above_threshold (similarity : Q) : bool := negb (Qle_bool similarity 0.85).

(** [clean_text_for_comparison] applied to a value: [re.sub] wants a string. *)
Definition clean_value (v : json) : result str :=
  match v with
  | JStr s => Ok (clean_text_for_comparison s)
  | _ => Raise TypeError
  end.

Section Resolver.

(** The registry, as seen through [requests.get(base_url, params=params)]. *)
Variable requests_get : str -> params -> reply.

Definition base_url : str := "https://api.crossref.org/works".

(** The year of a print-publication date: the first component of the
    first date, or of the default [[[""]]] when [date-parts] is absent,
    passed through [str]. *)
Definition pub_year_of (published : json) : Py.result str :=
  date_parts <- get published "date-parts" (JArr [JArr [JStr ""]]) ;;
  first <- getitem0 date_parts ;;
  y <- getitem0 first ;;
  Ok (str_ y).

(** The body of the loop over the candidates. *)
Definition examine (input_title_clean year : str) (result : json) : Py.result flow :=
  has_title <- contains "title" result ;;
  skip <- (if negb has_title then Ok true
           else t <- getitem result "title" ;; Ok (negb (truthy t))) ;;
  if (skip : bool) then Ok Continue
  else
    titles <- getitem result "title" ;;
    result_title <- getitem0 titles ;;
    result_title_clean <- clean_value result_title ;;
    let similarity := Difflib.ratio result_title_clean input_title_clean in
    if above_threshold similarity then
      has_print <- (if Str.truthy year then contains "published-print" result
                    else Ok false) ;;
      if (has_print : bool) then
        published <- getitem result "published-print" ;;
        pub_year <- pub_year_of published ;;
        if negb (Str.eqb pub_year year) then Ok Continue
        else doi <- get result "DOI" (JStr "") ;; Ok (Return doi)
      else doi <- get result "DOI" (JStr "") ;; Ok (Return doi)
    else Ok Continue.

(** [for result in items: ...], then the [return ""] after the [if]. *)
Fixpoint for_results (input_title_clean year : str) (items : list json)
  : Py.result json :=
  match items with
  | [] => Ok (JStr "")
  | result :: rest =>
      next <- examine input_title_clean year result ;;
      match next with
      | Return v => Ok v
      | Continue => for_results input_title_clean year rest
      end
  end.

Definition search_params (clean_title : str) : params :=
  Params (dquote :: clean_title ++ [dquote]) 3
         "DOI,title,published-print,author,container-title".

(** The [try] block. *)
Definition search_body (clean_title year : str) : Py.result json :=
  match requests_get base_url (search_params clean_title) with
  | Failed e => Raise e
  | Response status_code body =>
      if (status_code =? 200)%Z then
        results <- response_json body ;;
        message <- getitem results "message" ;;
        items <- getitem message "items" ;;
        if negb (truthy items) then Ok (JStr "")
        else
          let input_title_clean := clean_text_for_comparison clean_title in
          candidates <- iterate items ;;
          for_results input_title_clean year candidates
      else Ok (JStr "")
  end.

(** The value returned, and the warnings shown on the way. *)
Definition search_crossref_doi (title authors year : str) : json * list warning :=
  let clean_title := Str.replace_char newline " " (Str.strip title) in
  try_except
    (v <- search_body clean_title year ;; Ok (v, []))
    (fun e => (JStr "", [ErrorSearchingDOI e])).

End Resolver.

Definition scenario : str :=
  lit "2020 - Smith, J. " ++ dquote :: lit "A Study of Graphs" ++ dquote :: lit ". Journal of Math.".


(** * Properties *)

(** ** Strings *)

Module StrFacts.
Import Str.

Fixpoint prefix_len (p : ascii -> bool) (s : str) : nat :=
  match s with
  | [] => 0
  | c :: tl => if p c then S (prefix_len p tl) else 0
  end.

Lemma lstrip_by_skipn : forall p s, lstrip_by p s = skipn (prefix_len p s) s.
Proof.
  induction s as [|c tl IH]; simpl; auto.
  destruct (p c); simpl; auto.
Qed.

Lemma lstrip_by_app_stop : forall p u c v,
  p c = false -> lstrip_by p (u ++ c :: v) = lstrip_by p u ++ c :: v.
Proof.
  induction u as [|x u IH]; simpl; intros c v Hc.
  - now rewrite Hc.
  - destruct (p x); auto.
Qed.

Lemma lstrip_by_all : forall p u,
  forallb p u = true -> lstrip_by p u = [].
Proof.
  induction u as [|x u IH]; simpl; auto.
  intros H. apply andb_prop in H. destruct H as [H1 H2]. rewrite H1. auto.
Qed.

Lemma lstrip_by_head : forall p c v,
  p c = false -> lstrip_by p (c :: v) = c :: v.
Proof. intros p c v H. simpl. now rewrite H. Qed.

Lemma rstrip_by_app_stop : forall p u c v,
  p c = false -> rstrip_by p (u ++ c :: v) = u ++ c :: rstrip_by p v.
Proof.
  intros p u c v Hc. unfold rstrip_by.
  rewrite rev_app_distr. simpl. rewrite <- app_assoc. simpl.
  rewrite lstrip_by_app_stop by assumption.
  rewrite rev_app_distr. simpl. rewrite rev_involutive.
  now rewrite <- app_assoc.
Qed.

Lemma eqb_eq : forall s t, Str.eqb s t = true <-> s = t.
Proof.
  induction s as [|c s IH]; destruct t as [|d t]; simpl; split; intros H;
    try discriminate; auto.
  - apply andb_prop in H. destruct H as [H1 H2].
    apply Ascii.eqb_eq in H1. apply IH in H2. now subst.
  - inversion H; subst. rewrite Ascii.eqb_refl. simpl. now apply IH.
Qed.

Lemma startswith_iff : forall p s,
  startswith p s = true <-> exists rest, s = p ++ rest.
Proof.
  induction p as [|c p IH]; simpl; intros s.
  - split; eauto.
  - destruct s as [|d s].
    + split; [discriminate | intros [r Hr]; discriminate].
    + split.
      * intros H. apply andb_prop in H. destruct H as [H1 H2].
        apply Ascii.eqb_eq in H1. apply IH in H2. destruct H2 as [r Hr].
        exists r. now subst.
      * intros [r Hr]. inversion Hr; subst. rewrite Ascii.eqb_refl. simpl.
        apply IH. eauto.
Qed.

End StrFacts.

(** ** The matcher on the patterns of the program *)

Module ReFacts.
Import Str StrFacts Re.

(** Greedy repetition of one character class, by recursion on the text. *)
Fixpoint star_chr (p : ascii -> bool) (k : mstate -> option mstate)
  (pos : nat) (s : str) (caps : list (nat * (nat * nat))) : option mstate :=
  match s with
  | [] => k (MState pos [] caps)
  | c :: tl =>
      if p c then
        match star_chr p k (S pos) tl caps with
        | Some res => Some res
        | None => k (MState pos s caps)
        end
      else k (MState pos s caps)
  end.

Lemma star_loop_chr : forall p k s pos caps,
  star_loop (run (Chr p)) k (length s) (MState pos s caps) = star_chr p k pos s caps.
Proof.
  induction s as [|c tl IH]; intros pos caps; simpl; auto.
  destruct (p c); auto.
  assert (Hlt : (pos <? S pos) = true) by (apply Nat.ltb_lt; lia).
  rewrite Hlt, IH. reflexivity.
Qed.

Lemma run_star_chr : forall p k pos s caps,
  run (Star (Chr p)) (MState pos s caps) k = star_chr p k pos s caps.
Proof. intros. simpl. apply star_loop_chr. Qed.

(** The longest repetition wins when the rest of the pattern accepts it. *)
Lemma star_chr_longest : forall p k s pos caps res,
  k (MState (pos + prefix_len p s) (lstrip_by p s) caps) = Some res ->
  star_chr p k pos s caps = Some res.
Proof.
  induction s as [|c tl IH]; intros pos caps res; simpl.
  - now rewrite Nat.add_0_r.
  - destruct (p c).
    + intros H. rewrite (IH (S pos) caps res); auto.
      now replace (S pos + prefix_len p tl) with (pos + S (prefix_len p tl)) by lia.
    + now rewrite Nat.add_0_r.
Qed.

(** Nothing shorter is tried with success when the rest of the pattern
    cannot start on a character of the class. *)
Lemma star_chr_only_longest : forall p k s pos caps,
  (forall pos' c tl, p c = true -> k (MState pos' (c :: tl) caps) = None) ->
  star_chr p k pos s caps = k (MState (pos + prefix_len p s) (lstrip_by p s) caps).
Proof.
  induction s as [|c tl IH]; intros pos caps Hk; simpl.
  - now rewrite Nat.add_0_r.
  - destruct (p c) eqn:Hc.
    + rewrite IH by assumption.
      replace (S pos + prefix_len p tl) with (pos + S (prefix_len p tl)) by lia.
      destruct (k (MState (pos + S (prefix_len p tl)) (lstrip_by p tl) caps)); auto.
    + now rewrite Nat.add_0_r.
Qed.

(** Searching past a prefix where no attempt succeeds. *)
Lemma search_at_skip : forall r pre s pos ma,
  match_here r pos (pre ++ s) ma = None \/ pre = [] ->
  (forall i, 0 < i < length pre ->
             match_here r (pos + i) (skipn i (pre ++ s)) false = None) ->
  search_at r pos (pre ++ s) ma
  = search_at r (pos + length pre) s (match pre with [] => ma | _ => false end).
Proof.
  induction pre as [|c pre IH]; intros s pos ma H0 Hi.
  - simpl. now rewrite Nat.add_0_r.
  - destruct H0 as [H0|H0]; [|discriminate].
    simpl (search_at _ _ _ _). simpl app in H0. rewrite H0.
    destruct pre as [|d pre].
    + simpl. now replace (pos + 1) with (S pos) by lia.
    + rewrite IH.
      * simpl. f_equal. lia.
      * left. specialize (Hi 1). simpl in Hi.
        replace (pos + 1) with (S pos) in Hi by lia. apply Hi. lia.
      * intros i Hlt. specialize (Hi (S i)). simpl in Hi.
        replace (S pos + i) with (pos + S i) by lia. apply Hi. simpl in Hlt. lia.
Qed.

Lemma search_at_nil : forall r pos ma,
  search_at r pos [] ma = match_here r pos [] ma.
Proof. intros. simpl. destruct (match_here r pos [] ma); auto. Qed.


Lemma run_Seq : forall r1 r2 st k,
  run (Seq r1 r2) st k = run r1 st (fun st1 => run r2 st1 k).
Proof. reflexivity. Qed.

Lemma run_Chr : forall p pos s caps k,
  run (Chr p) (MState pos s caps) k
  = match s with
    | c :: tl => if p c then k (MState (S pos) tl caps) else None
    | [] => None
    end.
Proof. reflexivity. Qed.

Lemma run_Group : forall n r st k,
  run (Group n r) st k = run r st (fun st1 => k (set_cap n (m_pos st) (m_pos st1) st1)).
Proof. reflexivity. Qed.

Lemma run_Ahead : forall r st k,
  run (Ahead r) st k
  = match run r st (fun st1 => Some st1) with
    | Some st1 => k (MState (m_pos st) (m_rest st) (m_caps st1))
    | None => None
    end.
Proof. reflexivity. Qed.

Lemma split_first : forall (p : ascii -> bool) (s : str),
  forallb (fun c => negb (p c)) s = true
  \/ exists pre c tl,
       s = pre ++ c :: tl /\ forallb (fun c => negb (p c)) pre = true /\ p c = true.
Proof.
  induction s as [|x s IH]; simpl; auto.
  destruct (p x) eqn:Hx.
  - right. exists [], x, s. auto.
  - destruct IH as [IH|(pre & c & tl & E & Hpre & Hc)]; auto.
    right. exists (x :: pre), c, tl. subst. simpl. rewrite Hx. auto.
Qed.

(** A pattern that starts with one character of a class [p] and then
    takes [ext tl] more characters of the text [tl] behind it. *)
Section ClassLed.

Variable r : regex.
Variable p : ascii -> bool.
Variable ext : str -> nat.

Hypothesis match_nil : forall pos ma, match_here r pos [] ma = None.
Hypothesis match_cons : forall pos c tl ma,
  match_here r pos (c :: tl) ma
  = if p c then Some (Match pos (S pos + ext tl) []) else None.

Lemma search_class_none : forall s pos ma,
  forallb (fun c => negb (p c)) s = true -> search_at r pos s ma = None.
Proof.
  induction s as [|x s IH]; intros pos ma H; simpl.
  - now rewrite match_nil.
  - simpl in H. apply andb_prop in H. destruct H as [Hx Hs].
    rewrite match_cons. apply negb_true_iff in Hx. rewrite Hx. now apply IH.
Qed.

Lemma search_class_found : forall pre c tl pos ma,
  forallb (fun c => negb (p c)) pre = true -> p c = true ->
  search_at r pos (pre ++ c :: tl) ma
  = Some (Match (pos + length pre) (S (pos + length pre) + ext tl) []).
Proof.
  induction pre as [|x pre IH]; intros c tl pos ma Hpre Hc; simpl.
  - rewrite match_cons, Hc. now rewrite Nat.add_0_r.
  - simpl in Hpre. apply andb_prop in Hpre. destruct Hpre as [Hx Hpre].
    rewrite match_cons. apply negb_true_iff in Hx. rewrite Hx.
    rewrite IH by assumption. do 2 f_equal; lia.
Qed.

(** One turn of [re.sub] on a text with a match. *)
Lemma sub_loop_class_found : forall fuel repl pre c tl ma,
  forallb (fun c => negb (p c)) pre = true -> p c = true ->
  sub_loop (S fuel) r repl (pre ++ c :: tl) ma
  = pre ++ repl ++ sub_loop fuel r repl (skipn (ext tl) tl) false.
Proof.
  intros fuel repl pre c tl ma Hpre Hc.
  cbn [sub_loop]. rewrite search_class_found by assumption.
  cbn [m_start m_end Nat.add].
  rewrite firstn_app, firstn_all, Nat.sub_diag, firstn_O, app_nil_r.
  replace (S (length pre + ext tl)) with (length pre + S (ext tl)) by lia.
  rewrite skipn_app.
  rewrite skipn_all2 by lia.
  replace (length pre + S (ext tl) - length pre) with (S (ext tl)) by lia.
  cbn [skipn app].
  replace (length pre + S (ext tl) =? length pre) with false
    by (symmetry; apply Nat.eqb_neq; lia).
  reflexivity.
Qed.

Lemma sub_loop_class_none : forall fuel repl s ma,
  forallb (fun c => negb (p c)) s = true -> sub_loop fuel r repl s ma = s.
Proof.
  intros [|fuel] repl s ma H; cbn [sub_loop]; auto.
  now rewrite search_class_none.
Qed.

End ClassLed.

Lemma match_here_Chr : forall p pos s ma,
  match_here (Chr p) pos s ma
  = match s with
    | c :: tl => if p c then Some (Match pos (S pos + 0) []) else None
    | [] => None
    end.
Proof.
  intros p pos [|c tl] ma; unfold match_here; rewrite run_Chr; auto.
  destruct (p c); auto. cbn [m_pos m_caps].
  replace (S pos =? pos) with false by (symmetry; apply Nat.eqb_neq; lia).
  rewrite andb_false_r, Nat.add_0_r. reflexivity.
Qed.

Lemma match_here_Plus : forall p pos s ma,
  match_here (Plus (Chr p)) pos s ma
  = match s with
    | c :: tl => if p c then Some (Match pos (S pos + prefix_len p tl) []) else None
    | [] => None
    end.
Proof.
  intros p pos [|c tl] ma; unfold match_here, Plus; rewrite run_Seq, run_Chr; auto.
  destruct (p c); auto.
  rewrite run_star_chr.
  rewrite star_chr_longest
    with (res := MState (S pos + prefix_len p tl) (lstrip_by p tl) []); auto.
  cbn [m_pos].
  replace (S pos + prefix_len p tl =? pos) with false
    by (symmetry; apply Nat.eqb_neq; lia).
  now rewrite andb_false_r.
Qed.

End ReFacts.

(** ** [clean_text_for_comparison] *)

Module CleanText.
Import Str StrFacts Re ReFacts.

(** The characters the first substitution leaves alone: word characters,
    whitespace and the hyphen. *)
Definition kept (c : ascii) : bool :=
  isword c || isspace c || Ascii.eqb c "-".

(** Every other character replaced by a space. *)
Definition blank_others (s : str) : str :=
  map (fun c => if kept c then c else " "%char) s.

(** Every other character removed. *)
Definition remove_others (s : str) : str := filter kept s.

(** Each run of whitespace replaced by one space; [in_run] tells that the
    character before was whitespace. *)
Fixpoint collapse_spaces (in_run : bool) (s : str) : str :=
  match s with
  | [] => []
  | c :: tl =>
      if isspace c then
        if in_run then collapse_spaces true tl else " "%char :: collapse_spaces true tl
      else c :: collapse_spaces false tl
  end.

(** The normal form in the words of the specification (characters
    removed), and with the characters replaced by spaces. *)
Definition normalize_removing (s : str) : str :=
  strip (lower (collapse_spaces false (remove_others s))).

Definition normalize_replacing (s : str) : str :=
  strip (lower (collapse_spaces false (blank_others s))).

Lemma map_unless_none : forall (p : ascii -> bool) (x : ascii) (s : str),
  forallb (fun c => negb (p c)) s = true ->
  map (fun c => if p c then x else c) s = s.
Proof.
  induction s as [|c s IH]; simpl; auto.
  intros H. apply andb_prop in H. destruct H as [Hc Hs].
  apply negb_true_iff in Hc. rewrite Hc. f_equal. auto.
Qed.

Lemma sub_loop_Chr : forall p x fuel s ma,
  length s < fuel ->
  sub_loop fuel (Chr p) [x] s ma = map (fun c => if p c then x else c) s.
Proof.
  intros p x.
  assert (Hnil : forall pos ma, match_here (Chr p) pos [] ma = None)
    by (intros; now rewrite match_here_Chr).
  assert (Hcons : forall pos c tl ma,
             match_here (Chr p) pos (c :: tl) ma
             = if p c then Some (Match pos (S pos + 0) []) else None)
    by (intros; now rewrite match_here_Chr).
  induction fuel as [|fuel IH]; intros s ma Hlen; [lia|].
  destruct (split_first p s) as [Hn|(pre & c & tl & E & Hpre & Hc)].
  - rewrite (sub_loop_class_none _ _ _ Hnil Hcons) by assumption.
    now rewrite map_unless_none.
  - subst s.
    rewrite (sub_loop_class_found _ _ _ Hcons) by assumption.
    cbn [skipn]. rewrite IH.
    + rewrite map_app, (map_unless_none p x pre) by assumption.
      cbn [map]. now rewrite Hc.
    + rewrite length_app in Hlen. simpl in Hlen. lia.
Qed.

Lemma collapse_spaces_app : forall pre s,
  forallb (fun c => negb (isspace c)) pre = true ->
  collapse_spaces false (pre ++ s) = pre ++ collapse_spaces false s.
Proof.
  induction pre as [|c pre IH]; simpl; auto.
  intros s H. apply andb_prop in H. destruct H as [Hc Hpre].
  apply negb_true_iff in Hc. rewrite Hc. f_equal. auto.
Qed.

Lemma collapse_spaces_run : forall s,
  collapse_spaces true s = collapse_spaces false (lstrip_by isspace s).
Proof.
  induction s as [|c s IH]; simpl; auto.
  destruct (isspace c) eqn:Hc; auto.
  simpl. now rewrite Hc.
Qed.

Lemma collapse_spaces_none : forall s,
  forallb (fun c => negb (isspace c)) s = true -> collapse_spaces false s = s.
Proof.
  intros s H. rewrite <- (app_nil_r s) at 1.
  rewrite collapse_spaces_app by assumption. simpl. apply app_nil_r.
Qed.

Lemma sub_loop_spaces : forall fuel s ma,
  length s < fuel ->
  sub_loop fuel re_spaces [" "%char] s ma = collapse_spaces false s.
Proof.
  unfold re_spaces.
  assert (Hnil : forall pos ma, match_here (Plus (Chr isspace)) pos [] ma = None)
    by (intros; now rewrite match_here_Plus).
  assert (Hcons : forall pos c tl ma,
             match_here (Plus (Chr isspace)) pos (c :: tl) ma
             = if isspace c
               then Some (Match pos (S pos + prefix_len isspace tl) [])
               else None)
    by (intros; now rewrite match_here_Plus).
  induction fuel as [|fuel IH]; intros s ma Hlen; [lia|].
  destruct (split_first isspace s) as [Hn|(pre & c & tl & E & Hpre & Hc)].
  - rewrite (sub_loop_class_none _ _ _ Hnil Hcons) by assumption.
    now rewrite collapse_spaces_none.
  - subst s.
    rewrite (sub_loop_class_found _ _ _ Hcons) by assumption.
    rewrite <- lstrip_by_skipn. rewrite IH.
    + rewrite collapse_spaces_app by assumption. cbn [collapse_spaces].
      rewrite Hc. now rewrite collapse_spaces_run.
    + rewrite length_app in Hlen. simpl in Hlen.
      rewrite lstrip_by_skipn, length_skipn. lia.
Qed.

Lemma sub_not_kept : forall s,
  Re.sub re_not_word_space_hyphen " " s = blank_others s.
Proof.
  intros s. unfold Re.sub, re_not_word_space_hyphen.
  change (lit " ") with [" "%char].
  rewrite sub_loop_Chr by lia.
  unfold blank_others, kept. apply map_ext. intros c.
  now destruct (isword c || isspace c || Ascii.eqb c "-").
Qed.

Lemma sub_spaces : forall s,
  Re.sub re_spaces " " s = collapse_spaces false s.
Proof.
  intros s. unfold Re.sub. change (lit " ") with [" "%char].
  apply sub_loop_spaces. lia.
Qed.

Lemma clean_text_normal_form : forall text,
  clean_text_for_comparison text = normalize_replacing text.
Proof.
  intros text. unfold clean_text_for_comparison, normalize_replacing.
  now rewrite sub_not_kept, sub_spaces.
Qed.

End CleanText.

(** ** The entry patterns of [extract_publications] *)

Module Entries.
Import Str StrFacts Re ReFacts.

Definition not_dquote (c : ascii) : bool := negb (Ascii.eqb c dquote).

(** The year marker at the head of [s]: four decimal digits, optional
    whitespace, a hyphen. *)
Definition starts_marker (s : str) : bool :=
  match s with
  | d1 :: d2 :: d3 :: d4 :: tl =>
      isdecimal d1 && isdecimal d2 && isdecimal d3 && isdecimal d4
      && match lstrip_by isspace tl with
         | c :: _ => Ascii.eqb "-" c
         | [] => false
         end
  | _ => false
  end.

(** A quoted title at the head of [s]: a double quote, one or more other
    characters, a double quote. *)
Definition quoted_at (s : str) : bool :=
  match s with
  | c :: tl =>
      Ascii.eqb dquote c && (0 <? prefix_len not_dquote tl)
      && match lstrip_by not_dquote tl with
         | _ :: _ => true
         | [] => false
         end
  | [] => false
  end.

Lemma space_not_hyphen : forall c, isspace c = true -> Ascii.eqb "-" c = false.
Proof.
  intros c H. destruct (Ascii.eqb_spec "-"%char c) as [E|]; auto.
  subst c. discriminate H.
Qed.

Lemma decimal_not_space : forall c, isdecimal c = true -> isspace c = false.
Proof.
  intros c. unfold isdecimal, isspace, between.
  destruct (N.leb_spec 48 (code c)); [|discriminate].
  destruct (N.leb_spec (code c) 57); [|discriminate].
  intros _.
  repeat match goal with
         | |- context [(?x <=? ?y)%N] => destruct (N.leb_spec x y)
         | |- context [(?x =? ?y)%N] => destruct (N.eqb_spec x y)
         end; auto; lia.
Qed.

Lemma decimal_not_hyphen : forall c, isdecimal c = true -> Ascii.eqb "-" c = false.
Proof.
  intros c H. destruct (Ascii.eqb_spec "-"%char c) as [E|]; auto.
  subst c. discriminate H.
Qed.

Lemma space_not_dquote : forall c, isspace c = true -> Ascii.eqb c dquote = false.
Proof.
  intros c H. destruct (Ascii.eqb_spec c dquote) as [E|]; auto.
  subst c. discriminate H.
Qed.

(** A text splits into its longest prefix in a class and the rest. *)
Lemma prefix_split : forall p s,
  s = firstn (prefix_len p s) s ++ lstrip_by p s
  /\ forallb p (firstn (prefix_len p s) s) = true
  /\ length (firstn (prefix_len p s) s) = prefix_len p s.
Proof.
  induction s as [|c s (IH1 & IH2 & IH3)]; simpl; auto.
  destruct (p c) eqn:Hc; simpl; auto.
  rewrite Hc, IH2, IH3. repeat split; auto. now rewrite <- IH1.
Qed.

Lemma prefix_len_app_stop : forall p u c v,
  forallb p u = true -> p c = false -> prefix_len p (u ++ c :: v) = length u.
Proof.
  induction u as [|x u IH]; simpl; intros c v Hu Hc.
  - now rewrite Hc.
  - apply andb_prop in Hu. destruct Hu as [Hx Hu]. rewrite Hx. f_equal. auto.
Qed.

Lemma lstrip_by_app_all : forall p u v,
  forallb p u = true -> lstrip_by p (u ++ v) = lstrip_by p v.
Proof.
  induction u as [|x u IH]; simpl; auto.
  intros v H. apply andb_prop in H. destruct H as [Hx Hu]. rewrite Hx. auto.
Qed.

(** The four digits of the marker. *)
Lemma run_digits : forall s pos caps k,
  run (Rep 4 (Chr isdecimal)) (MState pos s caps) k
  = match s with
    | d1 :: d2 :: d3 :: d4 :: tl =>
        if isdecimal d1 && isdecimal d2 && isdecimal d3 && isdecimal d4
        then k (MState (4 + pos) tl caps) else None
    | _ => None
    end.
Proof.
  intros s pos caps k.
  destruct s as [|d1 [|d2 [|d3 [|d4 tl]]]];
    cbn [Rep run m_rest m_pos m_caps];
    repeat match goal with
           | |- context [isdecimal ?d] => destruct (isdecimal d)
           end; reflexivity.
Qed.

(** Optional whitespace, a hyphen, optional whitespace. *)
Lemma run_hyphen : forall s pos caps,
  run (Seq (Star (Chr isspace)) (Seq (Lit "-") (Star (Chr isspace))))
      (MState pos s caps) (fun st => Some st)
  = match lstrip_by isspace s with
    | c :: tl =>
        if Ascii.eqb "-" c
        then Some (MState (S (pos + prefix_len isspace s) + prefix_len isspace tl)
                          (lstrip_by isspace tl) caps)
        else None
    | [] => None
    end.
Proof.
  intros s pos caps. rewrite run_Seq, run_star_chr.
  rewrite star_chr_only_longest.
  - rewrite run_Seq. unfold Lit. rewrite run_Chr.
    destruct (lstrip_by isspace s) as [|c tl]; auto.
    destruct (Ascii.eqb "-" c); auto.
    rewrite run_star_chr. now apply star_chr_longest.
  - intros pos' c tl Hc. rewrite run_Seq. unfold Lit. rewrite run_Chr.
    now rewrite space_not_hyphen.
Qed.

(** The look-ahead succeeds exactly on a marker, with an empty match. *)
Lemma match_here_entry_start : forall pos s ma,
  match_here re_entry_start pos s ma
  = if starts_marker s && negb ma then Some (Match pos pos []) else None.
Proof.
  intros pos s ma. unfold match_here, re_entry_start, re_year_marker.
  rewrite run_Ahead, run_Seq, run_digits. unfold starts_marker.
  destruct s as [|d1 [|d2 [|d3 [|d4 tl]]]]; auto.
  destruct (isdecimal d1 && isdecimal d2 && isdecimal d3 && isdecimal d4); auto.
  rewrite run_hyphen.
  destruct (lstrip_by isspace tl) as [|c tl2]; auto.
  destruct (Ascii.eqb "-" c); auto.
  cbn [m_pos m_rest m_caps andb]. rewrite Nat.eqb_refl, andb_true_r.
  now destruct ma.
Qed.

(** [re.match] on the year pattern succeeds on a marker, with the four
    digits in group 1. *)
Lemma match_year_marker : forall s,
  starts_marker s = true ->
  exists e, Re.match_ (re_year_marker true) s = Some (Match 0 e [(1, (0, 4))]).
Proof.
  intros s H. unfold Re.match_, match_here, re_year_marker.
  rewrite run_Seq, run_Group, run_digits. unfold starts_marker in H.
  destruct s as [|d1 [|d2 [|d3 [|d4 tl]]]]; try discriminate.
  destruct (isdecimal d1 && isdecimal d2 && isdecimal d3 && isdecimal d4);
    try discriminate.
  cbn [andb] in H. unfold set_cap. cbn [m_pos m_rest m_caps].
  rewrite run_Seq, run_star_chr, star_chr_only_longest.
  - rewrite run_Seq. unfold Lit. rewrite run_Chr.
    destruct (lstrip_by isspace tl) as [|c tl2]; try discriminate.
    rewrite H. rewrite run_star_chr.
    erewrite star_chr_longest; [|reflexivity].
    cbn [m_pos m_caps andb]. eauto.
  - intros pos' c tl' Hc. rewrite run_Seq. unfold Lit. rewrite run_Chr.
    now rewrite space_not_hyphen.
Qed.

(** The title pattern matches at a quoted title. *)
Lemma match_here_quoted : forall pos t post ma,
  t <> [] -> forallb not_dquote t = true ->
  match_here re_quoted pos (dquote :: t ++ dquote :: post) ma
  = Some (Match pos (S (S (pos + length t))) [(1, (S pos, S (pos + length t)))]).
Proof.
  intros pos t post ma Hne Ht. unfold match_here, re_quoted, Lit, Plus.
  rewrite run_Seq, run_Chr. rewrite Ascii.eqb_refl.
  rewrite run_Seq, run_Group, run_Seq, run_Chr.
  destruct t as [|c t]; [congruence|]. cbn [app]. change (not_dquote c) with (negb (Ascii.eqb c dquote)).
  simpl in Ht. apply andb_prop in Ht. destruct Ht as [Hc Ht].
  unfold not_dquote in Hc. rewrite Hc.
  rewrite run_star_chr.
  assert (Hq : negb (Ascii.eqb dquote dquote) = false) by now rewrite Ascii.eqb_refl.
  rewrite star_chr_longest
    with (res := MState (S (S (pos + length (c :: t)))) post
                        [(1, (S pos, S (pos + length (c :: t))))]).
  - reflexivity.
  - change (fun c0 => negb (Ascii.eqb c0 dquote)) with not_dquote.
    rewrite prefix_len_app_stop by assumption.
    rewrite lstrip_by_app_all by assumption.
    rewrite lstrip_by_head by assumption.
    unfold set_cap. cbn [m_pos m_rest m_caps].
    rewrite run_Chr, Ascii.eqb_refl. cbn [m_pos m_caps length].
    replace (S (S (S pos) + length t) =? pos) with false
      by (symmetry; apply Nat.eqb_neq; lia).
    rewrite andb_false_r. repeat f_equal; lia.
Qed.

Lemma quoted_at_split : forall s,
  quoted_at s = true ->
  exists t post,
    s = dquote :: t ++ dquote :: post /\ t <> [] /\ forallb not_dquote t = true.
Proof.
  intros [|c tl] H; [discriminate|]. unfold quoted_at in H.
  apply andb_prop in H. destruct H as [H H3].
  apply andb_prop in H. destruct H as [H1 H2].
  apply Ascii.eqb_eq in H1. subst c. apply Nat.ltb_lt in H2.
  destruct (prefix_split not_dquote tl) as (E & Hall & Hlen).
  destruct (lstrip_by not_dquote tl) as [|d post] eqn:Hrest; [discriminate|].
  assert (Hd : not_dquote d = false).
  { destruct (not_dquote d) eqn:Hd; auto.
    assert (Hs : lstrip_by not_dquote (lstrip_by not_dquote tl) = lstrip_by not_dquote tl).
    { clear. induction tl as [|x tl IH]; simpl; auto.
      destruct (not_dquote x) eqn:Hx; auto. simpl. now rewrite Hx. }
    rewrite Hrest in Hs. simpl in Hs. rewrite Hd in Hs.
    exfalso. clear -Hs. assert (L : length (lstrip_by not_dquote post) = S (length post))
      by now rewrite Hs.
    rewrite lstrip_by_skipn, length_skipn in L. lia. }
  unfold not_dquote in Hd. apply negb_false_iff, Ascii.eqb_eq in Hd. subst d.
  exists (firstn (prefix_len not_dquote tl) tl), post. repeat split; auto.
  - now rewrite <- E.
  - intros E0. rewrite E0 in Hlen. simpl in Hlen. lia.
Qed.

(** *** Entries and the places where a text is split *)

(** No marker inside the entry, after its first character. *)
Definition no_inner_marker (e : str) : bool :=
  forallb (fun i => negb (starts_marker (skipn i e))) (seq 1 (length e - 1)).

(** A quoted title somewhere in the entry. *)
Definition has_quoted_title (e : str) : bool :=
  existsb (fun i => quoted_at (skipn i e)) (seq 0 (length e)).

(** An entry with a leading year marker and a quoted title. *)
Definition marked_entry (e : str) : bool :=
  starts_marker e && has_quoted_title e.

(** Such an entry whose only year marker is the leading one. *)
Definition valid_entry (e : str) : bool :=
  starts_marker e && no_inner_marker e && has_quoted_title e.

Lemma lstrip_by_nil_all : forall p u, lstrip_by p u = [] -> forallb p u = true.
Proof.
  induction u as [|x u IH]; simpl; auto.
  destruct (p x); [auto | discriminate].
Qed.

Lemma lstrip_by_app_keep : forall p u v c r,
  lstrip_by p u = c :: r -> lstrip_by p (u ++ v) = c :: r ++ v.
Proof.
  induction u as [|x u IH]; simpl; intros v c r H; [discriminate|].
  destruct (p x); auto. inversion H; subst. reflexivity.
Qed.

Lemma starts_marker_split : forall s,
  starts_marker s = true ->
  exists d1 d2 d3 d4 ws tl,
    s = d1 :: d2 :: d3 :: d4 :: ws ++ "-"%char :: tl
    /\ isdecimal d1 = true /\ forallb isspace ws = true.
Proof.
  intros s H. unfold starts_marker in H.
  destruct s as [|d1 [|d2 [|d3 [|d4 tl]]]]; try discriminate.
  apply andb_prop in H. destruct H as [Hd H].
  destruct (prefix_split isspace tl) as (E & Hall & _).
  destruct (lstrip_by isspace tl) as [|c tl2]; [discriminate|].
  apply Ascii.eqb_eq in H. subst c.
  exists d1, d2, d3, d4, (firstn (prefix_len isspace tl) tl), tl2.
  repeat split; auto.
  - now rewrite <- E.
  - now destruct (isdecimal d1).
Qed.

Lemma starts_marker_app : forall e x,
  starts_marker e = true -> starts_marker (e ++ x) = true.
Proof.
  intros e x H. unfold starts_marker in *.
  destruct e as [|d1 [|d2 [|d3 [|d4 tl]]]]; try discriminate.
  cbn [app]. apply andb_prop in H. destruct H as [Hd H]. rewrite Hd.
  destruct (lstrip_by isspace tl) as [|c tl2] eqn:E; [discriminate|].
  now rewrite (lstrip_by_app_keep _ _ x E).
Qed.

Lemma starts_marker_digit : forall s,
  starts_marker s = true -> exists d tl, s = d :: tl /\ isdecimal d = true.
Proof.
  intros s H. destruct (starts_marker_split _ H) as (d1 & d2 & d3 & d4 & ws & tl & E & Hd & _).
  subst. eauto.
Qed.

Lemma digits_then_digit : forall a b c d x tl,
  isdecimal x = true ->
  isdecimal a && isdecimal b && isdecimal c && isdecimal d
  && match lstrip_by isspace (x :: tl) with
     | y :: _ => Ascii.eqb "-" y
     | [] => false
     end = false.
Proof.
  intros a b c d x tl Hx.
  rewrite lstrip_by_head by now apply decimal_not_space.
  rewrite decimal_not_hyphen by assumption. apply andb_false_r.
Qed.

(** Inside an entry the look-ahead sees the same thing whether or not
    another entry follows. *)
Lemma starts_marker_inner : forall t rest,
  t <> [] -> rest = [] \/ starts_marker rest = true ->
  starts_marker (t ++ rest) = starts_marker t.
Proof.
  intros t rest Ht [Hr|Hr].
  - subst. now rewrite app_nil_r.
  - assert (Hr' := Hr). unfold starts_marker in Hr'.
    destruct rest as [|r1 [|r2 [|r3 [|r4 rtl]]]]; try discriminate.
    apply andb_prop in Hr'. destruct Hr' as [Hd _].
    apply andb_prop in Hd. destruct Hd as [Hd H4].
    apply andb_prop in Hd. destruct Hd as [Hd H3].
    apply andb_prop in Hd. destruct Hd as [H1 H2].
    destruct t as [|a [|b [|c [|d t']]]]; [congruence| | | |].
    + cbn [app starts_marker]. now apply digits_then_digit.
    + cbn [app starts_marker]. now apply digits_then_digit.
    + cbn [app starts_marker]. now apply digits_then_digit.
    + cbn [app starts_marker].
      destruct (lstrip_by isspace t') as [|y r] eqn:E.
      * rewrite lstrip_by_app_all by now apply lstrip_by_nil_all.
        rewrite lstrip_by_head by now apply decimal_not_space.
        rewrite decimal_not_hyphen by assumption. now rewrite !andb_false_r.
      * now rewrite (lstrip_by_app_keep _ _ _ E).
Qed.

Lemma no_inner_marker_at : forall e i,
  no_inner_marker e = true -> 0 < i < length e ->
  starts_marker (skipn i e) = false.
Proof.
  intros e i H Hi. unfold no_inner_marker in H.
  rewrite forallb_forall in H. apply negb_true_iff, H, in_seq. lia.
Qed.

Lemma valid_entry_parts : forall e,
  valid_entry e = true ->
  starts_marker e = true /\ no_inner_marker e = true /\ has_quoted_title e = true.
Proof.
  intros e H. unfold valid_entry in H.
  apply andb_prop in H. destruct H as [H H3].
  apply andb_prop in H. destruct H as [H1 H2]. auto.
Qed.

Lemma valid_entry_length : forall e, valid_entry e = true -> 0 < length e.
Proof.
  intros e H. apply valid_entry_parts in H. destruct H as (H & _ & _).
  destruct (starts_marker_digit _ H) as (d & tl & E & _). subst. simpl. lia.
Qed.

Lemma search_at_head : forall r pos s ma m,
  match_here r pos s ma = Some m -> search_at r pos s ma = Some m.
Proof. intros r pos [|c s] ma m H; simpl; now rewrite H. Qed.

Lemma search_at_reaches : forall r pre s pos ma m,
  match_here r (pos + length pre) s false = Some m ->
  (pre = [] -> ma = false) ->
  exists m', search_at r pos (pre ++ s) ma = Some m'.
Proof.
  induction pre as [|x pre IH]; intros s pos ma m H Hma.
  - rewrite (Hma eq_refl). simpl in *. rewrite Nat.add_0_r in H.
    exists m. now apply search_at_head.
  - simpl. destruct (match_here r pos (x :: pre ++ s) ma) as [m0|]; eauto.
    apply IH with (m := m); auto.
    simpl in H. now replace (S pos + length pre) with (pos + S (length pre)) by lia.
Qed.

(** After an entry, the next split point is the start of the next entry,
    if there is one. *)
Lemma search_past_entry : forall e rest pos,
  valid_entry e = true -> rest = [] \/ starts_marker rest = true ->
  search_at re_entry_start pos (e ++ rest) true
  = if starts_marker rest
    then Some (Match (pos + length e) (pos + length e) [])
    else None.
Proof.
  intros e rest pos He Hrest.
  assert (Hlen := valid_entry_length _ He).
  apply valid_entry_parts in He. destruct He as (Hm & Hin & _).
  rewrite search_at_skip.
  - destruct e as [|x e]; [simpl in Hlen; lia|].
    destruct Hrest as [Hr|Hr].
    + subst rest. rewrite search_at_nil, match_here_entry_start. reflexivity.
    + rewrite Hr. apply search_at_head. rewrite match_here_entry_start.
      now rewrite Hr.
  - left. rewrite match_here_entry_start. now rewrite andb_false_r.
  - intros i Hi. rewrite match_here_entry_start.
    rewrite skipn_app. replace (i - length e) with 0 by lia. cbn [skipn].
    rewrite starts_marker_inner; auto.
    + now rewrite (no_inner_marker_at _ Hin Hi).
    + intros E. apply (f_equal (@length ascii)) in E.
      rewrite length_skipn in E. simpl in E. lia.
Qed.

Lemma split_loop_entries : forall es e fuel,
  valid_entry e = true -> forallb valid_entry es = true -> length es < fuel ->
  split_loop fuel re_entry_start (e ++ concat es) true = e :: es.
Proof.
  induction es as [|e' es IH]; intros e fuel He Hes Hfuel;
    (destruct fuel as [|fuel]; [lia|]); cbn [split_loop concat].
  - rewrite search_past_entry by auto. cbn [starts_marker].
    now rewrite app_nil_r.
  - simpl in Hes. apply andb_prop in Hes. destruct Hes as [He' Hes].
    assert (Hr : starts_marker (e' ++ concat es) = true).
    { apply starts_marker_app. now apply valid_entry_parts in He'. }
    rewrite search_past_entry by auto. rewrite Hr. cbn [m_start m_end Nat.add].
    rewrite Nat.eqb_refl.
    rewrite firstn_app, firstn_all, Nat.sub_diag, firstn_O, app_nil_r.
    rewrite skipn_app, skipn_all, Nat.sub_diag. cbn [skipn app].
    f_equal. apply IH; auto. simpl in Hfuel. lia.
Qed.

Lemma entries_length : forall es,
  forallb valid_entry es = true -> length es <= length (concat es).
Proof.
  induction es as [|e es IH]; simpl; auto.
  intros H. apply andb_prop in H. destruct H as [He Hes].
  apply valid_entry_length in He. rewrite length_app. specialize (IH Hes). lia.
Qed.

(** The split of a text made of entries: an empty chunk, then the entries. *)
Lemma split_entries : forall e es,
  forallb valid_entry (e :: es) = true ->
  Re.split re_entry_start (concat (e :: es)) = [] :: e :: es.
Proof.
  intros e es H. assert (Hlen := entries_length _ H).
  simpl in H. apply andb_prop in H. destruct H as [He Hes].
  unfold Re.split.
  replace (2 * length (concat (e :: es)) + 2)
    with (S (2 * length (concat (e :: es)) + 1)) by lia.
  cbn [split_loop].
  assert (Hm : starts_marker (concat (e :: es)) = true).
  { cbn [concat]. apply starts_marker_app. now apply valid_entry_parts in He. }
  rewrite (search_at_head re_entry_start 0 (concat (e :: es)) false
             (m := Match 0 0 [])).
  - cbn [m_start m_end firstn skipn Nat.eqb]. f_equal. cbn [concat].
    apply split_loop_entries; auto. simpl in Hlen. lia.
  - rewrite match_here_entry_start. now rewrite Hm.
Qed.

(** *** One entry *)

Lemma extract_step_app : forall pubs e,
  extract_step pubs e = pubs ++ extract_step [] e.
Proof.
  intros pubs e. unfold extract_step.
  destruct (negb (truthy (strip e))); [now rewrite app_nil_r|].
  destruct (Re.match_ (re_year_marker true) (strip e)); [|now rewrite app_nil_r].
  destruct (Re.search re_quoted (strip e)); [|now rewrite app_nil_r].
  reflexivity.
Qed.

Lemma fold_extract_step : forall l pubs,
  fold_left extract_step l pubs = pubs ++ concat (map (extract_step []) l).
Proof.
  induction l as [|e l IH]; intros pubs; simpl.
  - now rewrite app_nil_r.
  - rewrite IH, (extract_step_app pubs e). now rewrite app_assoc.
Qed.

Lemma strip_marked : forall e,
  starts_marker e = true ->
  strip e = rstrip_by isspace e /\ starts_marker (strip e) = true.
Proof.
  intros e H.
  destruct (starts_marker_split _ H) as (d1 & d2 & d3 & d4 & ws & tl & E & Hd & Hws).
  assert (Hl : lstrip_by isspace e = e).
  { subst e. apply lstrip_by_head. now apply decimal_not_space. }
  unfold strip, strip_by. rewrite Hl. split; auto.
  subst e. change (d1 :: d2 :: d3 :: d4 :: ws ++ "-"%char :: tl)
    with ((d1 :: d2 :: d3 :: d4 :: ws) ++ "-"%char :: tl).
  rewrite rstrip_by_app_stop by reflexivity.
  cbn [app]. unfold starts_marker in *.
  destruct (isdecimal d1 && isdecimal d2 && isdecimal d3 && isdecimal d4);
    [|discriminate].
  cbn [andb]. rewrite lstrip_by_app_all by assumption.
  rewrite lstrip_by_head by reflexivity. reflexivity.
Qed.

Lemma search_quoted_stripped : forall e,
  has_quoted_title e = true ->
  exists m, Re.search re_quoted (rstrip_by isspace e) = Some m.
Proof.
  intros e H. unfold has_quoted_title in H.
  apply existsb_exists in H. destruct H as (i & _ & Hq).
  destruct (quoted_at_split _ Hq) as (t & post & E & Hne & Ht).
  assert (Ee : e = (firstn i e ++ dquote :: t) ++ dquote :: post).
  { rewrite <- app_assoc. cbn [app]. rewrite <- E. symmetry. apply firstn_skipn. }
  rewrite Ee, rstrip_by_app_stop by reflexivity.
  rewrite <- app_assoc. cbn [app]. unfold Re.search.
  eapply search_at_reaches.
  - cbn [Nat.add]. apply match_here_quoted; assumption.
  - reflexivity.
Qed.

(** A valid entry gives exactly one record. *)
Lemma extract_step_valid : forall e,
  marked_entry e = true -> exists r, extract_step [] e = [r].
Proof.
  intros e H. unfold marked_entry in H.
  apply andb_prop in H. destruct H as [Hm Hq].
  destruct (strip_marked _ Hm) as [Es Hs].
  destruct (match_year_marker _ Hs) as [y Hy].
  destruct (search_quoted_stripped _ Hq) as [m Hsearch].
  rewrite <- Es in Hsearch.
  assert (Ht : truthy (strip e) = true).
  { destruct (starts_marker_digit _ Hs) as (d & tl & E & _). now rewrite E. }
  unfold extract_step. rewrite Hy, Hsearch, Ht.
  cbn [negb app]. eauto.
Qed.

Lemma valid_is_marked : forall e, valid_entry e = true -> marked_entry e = true.
Proof.
  intros e H. apply valid_entry_parts in H. destruct H as (H1 & _ & H3).
  unfold marked_entry. now rewrite H1, H3.
Qed.

Lemma extract_step_nil : extract_step [] [] = [].
Proof. reflexivity. Qed.

(** The records of a text made of valid entries. *)
Lemma extract_entries : forall es,
  forallb valid_entry es = true ->
  extract_publications (concat es) = concat (map (extract_step []) es).
Proof.
  intros [|e es] H; [reflexivity|].
  unfold extract_publications. rewrite split_entries by assumption.
  rewrite fold_extract_step. cbn [map concat app]. now rewrite extract_step_nil.
Qed.

Lemma extract_one_entry : forall e,
  valid_entry e = true -> extract_publications e = extract_step [] e.
Proof.
  intros e H. rewrite <- (app_nil_r e) at 1.
  change (e ++ []) with (concat [e]).
  rewrite extract_entries by (simpl; now rewrite H).
  simpl. apply app_nil_r.
Qed.

(** *** The fuel of [re.split] is enough

    A match of the look-ahead is empty, and the one after it must advance:
    there are at most [len(s) + 1] matches, and more fuel changes nothing. *)

Lemma search_at_entry_start : forall s pos ma m,
  search_at re_entry_start pos s ma = Some m ->
  exists p,
    m = Match p p [] /\ pos <= p <= pos + length s /\ (ma = true -> pos < p).
Proof.
  induction s as [|c s IH]; intros pos ma m H.
  - rewrite search_at_nil, match_here_entry_start in H. discriminate.
  - cbn [search_at] in H. rewrite match_here_entry_start in H.
    destruct (starts_marker (c :: s) && negb ma) eqn:E.
    + inversion H; subst. exists pos. repeat split; try lia.
      intros ->. now rewrite andb_false_r in E.
    + apply IH in H. destruct H as (p & Em & Hp & _).
      exists p. simpl. repeat split; auto; lia.
Qed.

Lemma split_loop_fuel : forall fuel1 fuel2 (s : str) (ma : bool),
  length s + (if ma then 0 else 1) < fuel1 ->
  length s + (if ma then 0 else 1) < fuel2 ->
  split_loop fuel1 re_entry_start s ma = split_loop fuel2 re_entry_start s ma.
Proof.
  induction fuel1 as [|fuel1 IH]; intros fuel2 s ma H1 H2; [lia|].
  destruct fuel2 as [|fuel2]; [lia|]. cbn [split_loop].
  destruct (search_at re_entry_start 0 s ma) as [m|] eqn:E; auto.
  apply search_at_entry_start in E. destruct E as (p & -> & Hp & Hma).
  cbn [m_start m_end]. rewrite Nat.eqb_refl. f_equal.
  assert (L : length (skipn p s) + 0 < fuel1 /\ length (skipn p s) + 0 < fuel2).
  { rewrite length_skipn. destruct ma.
    - specialize (Hma eq_refl). lia.
    - lia. }
  apply IH; apply L.
Qed.

End Entries.

(** ** [SequenceMatcher] on two equal sequences *)

Module DifflibFacts.
Import Difflib.

(** The ascending indices of [c] in [b], counted from [i]. *)
Fixpoint positions (c : ascii) (b : str) (i : nat) : list nat :=
  match b with
  | [] => []
  | x :: tl =>
      if Ascii.eqb x c then i :: positions c tl (S i) else positions c tl (S i)
  end.

Definition keys (d : b2j_t) : list ascii := map fst d.

Lemma b2j_get_setdefault : forall d elt i c,
  b2j_get (setdefault_append elt i d) c
  = if Ascii.eqb elt c then b2j_get d c ++ [i] else b2j_get d c.
Proof.
  induction d as [|[e idxs] tl IH]; intros elt i c; simpl.
  - destruct (Ascii.eqb elt c); reflexivity.
  - destruct (Ascii.eqb_spec e elt) as [E1|N1]; simpl.
    + subst e. destruct (Ascii.eqb elt c); reflexivity.
    + rewrite IH. destruct (Ascii.eqb_spec e c) as [E2|N2]; auto.
      subst e. destruct (Ascii.eqb_spec elt c); congruence.
Qed.

Lemma b2j_get_index_all : forall b i d c,
  b2j_get (index_all i b d) c = b2j_get d c ++ positions c b i.
Proof.
  induction b as [|x b IH]; intros i d c; simpl.
  - now rewrite app_nil_r.
  - rewrite IH, b2j_get_setdefault.
    destruct (Ascii.eqb x c); auto. now rewrite <- app_assoc.
Qed.

Lemma keys_setdefault_in : forall d elt i k,
  In k (keys (setdefault_append elt i d)) -> k = elt \/ In k (keys d).
Proof.
  induction d as [|[e idxs] tl IH]; intros elt i k; simpl.
  - intros [H|[]]; auto.
  - destruct (Ascii.eqb e elt); simpl.
    + intros [H|H]; auto.
    + intros [H|H]; auto. apply IH in H. tauto.
Qed.

Lemma keys_setdefault_nodup : forall d elt i,
  NoDup (keys d) -> NoDup (keys (setdefault_append elt i d)).
Proof.
  induction d as [|[e idxs] tl IH]; intros elt i H; simpl.
  - constructor; [intros [] | constructor].
  - inversion H as [|? ? Hin Hnd]; subst.
    destruct (Ascii.eqb_spec e elt) as [E|N]; simpl.
    + now constructor.
    + constructor; [|now apply IH].
      intros Hk. apply keys_setdefault_in in Hk. destruct Hk; [congruence|auto].
Qed.

Lemma keys_index_all_nodup : forall b i d,
  NoDup (keys d) -> NoDup (keys (index_all i b d)).
Proof.
  induction b as [|x b IH]; intros i d H; simpl; auto.
  apply IH. now apply keys_setdefault_nodup.
Qed.

Lemma b2j_get_absent : forall (f : ascii * list nat -> bool) d c,
  ~ In c (keys d) -> b2j_get (filter f d) c = [].
Proof.
  induction d as [|[e idxs] tl IH]; intros c H; simpl; auto.
  simpl in H.
  assert (Hc : Ascii.eqb e c = false).
  { destruct (Ascii.eqb_spec e c); auto. tauto. }
  destruct (f (e, idxs)); simpl; [rewrite Hc|]; apply IH; tauto.
Qed.

Lemma b2j_get_filter : forall (f : ascii * list nat -> bool) d c,
  NoDup (keys d) ->
  b2j_get (filter f d) c = [] \/ b2j_get (filter f d) c = b2j_get d c.
Proof.
  induction d as [|[e idxs] tl IH]; intros c H; simpl; auto.
  inversion H as [|? ? Hin Hnd]; subst.
  destruct (Ascii.eqb_spec e c) as [E|N].
  - subst e. destruct (f (c, idxs)); simpl.
    + rewrite Ascii.eqb_refl. auto.
    + left. now apply b2j_get_absent.
  - destruct (f (e, idxs)); simpl.
    + destruct (Ascii.eqb_spec e c); [congruence|]. now apply IH.
    + now apply IH.
Qed.

(** What [b2j] holds for an element: nothing (it is absent or popular),
    or all its indices. *)
Lemma chain_b_get : forall b c,
  b2j_get (chain_b b) c = [] \/ b2j_get (chain_b b) c = positions c b 0.
Proof.
  intros b c. unfold chain_b.
  assert (E : b2j_get (index_all 0 b []) c = positions c b 0)
    by now rewrite b2j_get_index_all.
  destruct (200 <=? length b).
  - rewrite <- E. apply b2j_get_filter. apply keys_index_all_nodup. constructor.
  - auto.
Qed.

Lemma positions_in : forall c b o j,
  In j (positions c b o) -> o <= j /\ nth_error b (j - o) = Some c.
Proof.
  induction b as [|x b IH]; intros o j; simpl; [tauto|].
  destruct (Ascii.eqb_spec x c) as [E|N].
  - intros [H|H].
    + subst. rewrite Nat.sub_diag. auto.
    + apply IH in H. destruct H as [H1 H2]. split; [lia|].
      replace (j - o) with (S (j - S o)) by lia. exact H2.
  - intros H. apply IH in H. destruct H as [H1 H2]. split; [lia|].
    replace (j - o) with (S (j - S o)) by lia. exact H2.
Qed.

Lemma positions_split : forall c b i o,
  nth_error b i = Some c ->
  exists l1 l2,
    positions c b o = l1 ++ (o + i) :: l2
    /\ (forall j, In j l1 -> j < o + i)
    /\ (forall j, In j l2 -> o + i < j).
Proof.
  induction b as [|x b IH]; intros i o H.
  - destruct i; discriminate.
  - destruct i as [|i]; simpl in H.
    + inversion H; subst x. simpl. rewrite Ascii.eqb_refl.
      exists [], (positions c b (S o)). rewrite Nat.add_0_r.
      repeat split; auto; [intros j []|].
      intros j Hj. apply positions_in in Hj. lia.
    + destruct (IH i (S o) H) as (l1 & l2 & E & H1 & H2).
      simpl. replace (o + S i) with (S o + i) by lia.
      destruct (Ascii.eqb x c).
      * exists (o :: l1), l2. rewrite E. repeat split; auto.
        intros j [Hj|Hj]; [lia | now apply H1].
      * exists l1, l2. auto.
Qed.

(** The value [k] that a row gives to the index [j]. *)
Definition grow (j2len : j2len_t) (j : nat) : nat := j2len_get_pred j2len j + 1.

Definition entry_of (j2len : j2len_t) (j : nat) : nat * nat := (j, grow j2len j).

(** Indices that do not beat the best block only fill [newj2len]. *)
Lemma row_quiet : forall js i bhi j2len rest newj2len best,
  (forall j, In j js -> j < bhi) ->
  (forall j, In j js -> grow j2len j <= size best) ->
  row i 0 bhi j2len (js ++ rest) newj2len best
  = row i 0 bhi j2len rest (rev (map (entry_of j2len) js) ++ newj2len) best.
Proof.
  induction js as [|j js IH]; intros i bhi j2len rest newj2len best Hlt Hle; auto.
  cbn [app row].
  assert (H0 : (j <? 0) = false) by (apply Nat.ltb_ge; lia).
  assert (H1 : (bhi <=? j) = false) by (apply Nat.leb_gt, Hlt; now left).
  assert (H2 : (size best <? j2len_get_pred j2len j + 1) = false).
  { apply Nat.ltb_ge. apply (Hle j). now left. }
  rewrite H0, H1, H2. rewrite IH.
  - cbn [map rev]. now rewrite <- app_assoc.
  - intros j' Hj. apply Hlt. now right.
  - intros j' Hj. apply Hle. now right.
Qed.

(** A dict whose values are the ones of the current row. *)
Definition row_dict (j2len : j2len_t) (js : list nat) (d : j2len_t) : Prop :=
  forall j k, In (j, k) d -> k = grow j2len j /\ In j js.

Lemma row_dict_get : forall j2len js d j,
  row_dict j2len js d ->
  j2len_get d j = 0 \/ (j2len_get d j = grow j2len j /\ In j js).
Proof.
  induction d as [|[j' k] d IH]; intros j H; simpl; auto.
  destruct (Nat.eqb_spec j' j) as [E|N].
  - subst j'. right. apply H. now left.
  - apply IH. intros x y Hxy. apply H. now right.
Qed.

Lemma row_dict_get_in : forall j2len js d j,
  row_dict j2len js d -> In (j, grow j2len j) d ->
  j2len_get d j = grow j2len j.
Proof.
  induction d as [|[j' k] d IH]; intros j H Hin; simpl; [destruct Hin|].
  destruct (Nat.eqb_spec j' j) as [E|N].
  - subst j'. apply (H j k). now left.
  - apply IH.
    + intros x y Hxy. apply H. now right.
    + destruct Hin as [Hin|Hin]; [congruence | assumption].
Qed.

Section Same.

Variable s : str.

(** The index [i] of [s] holds an element that [b2j] knows. *)
Definition live (i : nat) : bool :=
  match nth_error s i with
  | Some c => match b2j_get (chain_b s) c with [] => false | _ :: _ => true end
  | None => false
  end.

(** The number of consecutive live indices that end at [i]. *)
Fixpoint diag (i : nat) : nat :=
  match i with
  | 0 => if live 0 then 1 else 0
  | S i' => if live i then S (diag i') else 0
  end.

Definition dpred (i : nat) : nat :=
  match i with
  | 0 => 0
  | S i' => diag i'
  end.

Lemma diag_unfold : forall i, diag i = if live i then S (dpred i) else 0.
Proof. destruct i; reflexivity. Qed.

Lemma diag_le : forall i, diag i <= S i.
Proof.
  induction i as [|i IH]; simpl.
  - destruct (live 0); lia.
  - destruct (live (S i)); lia.
Qed.

(** What holds of [j2len] and of the best block before row [i]: the block
    lies on the diagonal, and no run seen so far is longer than the run
    on the diagonal next to it. *)
Definition inv (i : nat) (j2len : j2len_t) (best : block) : Prop :=
  fst (fst best) = snd (fst best)
  /\ fst (fst best) + size best <= i
  /\ (forall j, j2len_get j2len j <= diag j)
  /\ (forall j, j2len_get j2len j <= dpred i)
  /\ (forall j, j < i -> diag j <= size best)
  /\ j2len_get_pred j2len i = dpred i.

Lemma inv_start : inv 0 [] (0, 0, 0).
Proof. unfold inv. simpl. repeat split; auto; try lia. Qed.

Lemma grow_le_diag : forall i j2len best j c,
  inv i j2len best ->
  nth_error s j = Some c -> b2j_get (chain_b s) c <> [] ->
  grow j2len j <= diag j /\ grow j2len j <= S (dpred i).
Proof.
  intros i j2len best j c (_ & _ & I1 & I2 & _ & _) Hj Hc.
  assert (L : live j = true).
  { unfold live. rewrite Hj. destruct (b2j_get (chain_b s) c); congruence. }
  rewrite diag_unfold, L. unfold grow.
  destruct j as [|j]; simpl.
  - split; lia.
  - specialize (I1 j). specialize (I2 j). split; lia.
Qed.

(** One row keeps the invariant. *)
Lemma row_inv : forall i j2len best c,
  inv i j2len best -> nth_error s i = Some c ->
  exists newj2len best',
    row i 0 (length s) j2len (b2j_get (chain_b s) c) [] best = (newj2len, best')
    /\ inv (S i) newj2len best'.
Proof.
  intros i j2len best c I Hi.
  destruct (chain_b_get s c) as [E|E].
  - (* the element is not in b2j *)
    rewrite E. exists [], best. split; [reflexivity|].
    destruct I as (A1 & A2 & I1 & I2 & I3 & I4).
    assert (L : diag i = 0).
    { rewrite diag_unfold. unfold live. now rewrite Hi, E. }
    unfold inv. simpl. repeat split; auto; try lia.
    intros j Hj. destruct (Nat.eq_dec j i) as [->|]; [lia|]. apply I3. lia.
  - destruct (@positions_split c s i 0 Hi) as (l1 & l2 & P & Hl1 & Hl2).
    simpl in P, Hl1, Hl2.
    assert (Hne : b2j_get (chain_b s) c <> []).
    { rewrite E, P. now destruct l1. }
    assert (Hin : forall j, In j (l1 ++ i :: l2) ->
                   nth_error s j = Some c).
    { intros j Hj. rewrite <- P in Hj. apply positions_in in Hj.
      now rewrite Nat.sub_0_r in Hj. }
    assert (Hlt : forall j, In j (l1 ++ i :: l2) -> j < length s).
    { intros j Hj. apply nth_error_Some. now rewrite (Hin j Hj). }
    assert (G : forall j, In j (l1 ++ i :: l2) ->
                 grow j2len j <= diag j /\ grow j2len j <= S (dpred i)).
    { intros j Hj. eapply grow_le_diag; eauto. }
    assert (Gi : grow j2len i = diag i).
    { destruct I as (_ & _ & _ & _ & _ & I4).
      rewrite diag_unfold. unfold live. rewrite Hi.
      destruct (b2j_get (chain_b s) c); [congruence|].
      unfold grow. rewrite I4. lia. }
    assert (Di : diag i = S (dpred i)).
    { rewrite diag_unfold. unfold live. rewrite Hi.
      destruct (b2j_get (chain_b s) c); [congruence|]. reflexivity. }
    rewrite E, P.
    rewrite row_quiet.
    2:{ intros j Hj. apply Hlt. apply in_or_app. now left. }
    2:{ intros j Hj. destruct I as (_ & _ & _ & _ & I3 & _).
        transitivity (diag j).
        - apply G. apply in_or_app. now left.
        - apply I3. now apply Hl1. }
    rewrite app_nil_r. cbn [row].
    assert (H0 : (i <? 0) = false) by (apply Nat.ltb_ge; lia).
    assert (H1 : (length s <=? i) = false).
    { apply Nat.leb_gt, Hlt. apply in_or_app. right. now left. }
    rewrite H0, H1. fold (grow j2len i).
    set (best1 := if size best <? grow j2len i
                  then (i + 1 - grow j2len i, i + 1 - grow j2len i, grow j2len i)
                  else best).
    assert (B1 : grow j2len i <= size best1 /\ size best <= size best1).
    { unfold best1. destruct (Nat.ltb_spec (size best) (grow j2len i)); simpl; lia. }
    rewrite <- (app_nil_r l2).
    rewrite row_quiet.
    2:{ intros j Hj. apply Hlt. apply in_or_app. right. now right. }
    2:{ intros j Hj. transitivity (S (dpred i)).
        - apply G. apply in_or_app. right. now right.
        - rewrite <- Di, <- Gi. apply B1. }
    cbn [row].
    eexists. exists best1. split; [reflexivity|].
    set (d := rev (map (entry_of j2len) l2)
              ++ (i, grow j2len i) :: rev (map (entry_of j2len) l1)).
    assert (RD : row_dict j2len (l1 ++ i :: l2) d).
    { intros j k Hjk. unfold d in Hjk.
      apply in_app_or in Hjk. destruct Hjk as [Hjk|[Hjk|Hjk]].
      - apply in_rev, in_map_iff in Hjk. destruct Hjk as (x & Ex & Hx).
        inversion Ex; subst. split; auto. apply in_or_app. right. now right.
      - inversion Hjk; subst. split; auto. apply in_or_app. right. now left.
      - apply in_rev, in_map_iff in Hjk. destruct Hjk as (x & Ex & Hx).
        inversion Ex; subst. split; auto. apply in_or_app. now left. }
    destruct I as (A1 & A2 & I1 & I2 & I3 & I4).
    unfold inv. repeat split.
    + unfold best1. destruct (size best <? grow j2len i); auto.
    + unfold best1. destruct (Nat.ltb_spec (size best) (grow j2len i)); simpl.
      * assert (grow j2len i <= S i) by (rewrite Gi; apply diag_le). lia.
      * unfold size in *. lia.
    + intros j. destruct (row_dict_get j RD) as [Z|[Z Hj]]; rewrite Z; [lia|].
      now apply G.
    + intros j. simpl. rewrite Di.
      destruct (row_dict_get j RD) as [Z|[Z Hj]]; rewrite Z; [lia|].
      now apply G.
    + intros j Hj. destruct (Nat.eq_dec j i) as [->|].
      * rewrite <- Gi. apply B1.
      * transitivity (size best); [apply I3; lia | apply B1].
    + simpl. rewrite (row_dict_get_in i RD); auto.
      unfold d. apply in_or_app. right. now left.
Qed.

(** The best block after all the rows lies on the diagonal. *)
Lemma rows_inv : forall m i j2len best,
  i + m <= length s -> inv i j2len best ->
  exists j2len', inv (i + m) j2len' (rows s (chain_b s) m i 0 (length s) j2len best).
Proof.
  induction m as [|m IH]; intros i j2len best Hlen I.
  - rewrite Nat.add_0_r. simpl. eauto.
  - cbn [rows].
    destruct (nth_error s i) as [c|] eqn:Hi.
    2:{ apply nth_error_None in Hi. lia. }
    destruct (row_inv I Hi) as (newj2len & best' & R & I').
    rewrite R. replace (i + S m) with (S i + m) by lia.
    apply IH; [lia | assumption].
Qed.

End Same.

Lemma same_refl : forall (s : str) i, i < length s ->
  same (nth_error s i) (nth_error s i) = true.
Proof.
  intros s i H. destruct (nth_error s i) eqn:E.
  - simpl. apply Ascii.eqb_refl.
  - apply nth_error_None in E. lia.
Qed.

(** On the diagonal a block grows to the left as far as the start. *)
Lemma extend_left_same : forall s p k,
  p <= length s -> extend_left s s false 0 0 p p k = (0, 0, k + p).
Proof.
  induction p as [|p IH]; intros k Hp; cbn [extend_left].
  - now rewrite Nat.add_0_r.
  - replace (S p - 1) with p by lia.
    rewrite same_refl by lia. cbn [isbjunk Bool.eqb Nat.ltb Nat.leb andb].
    rewrite IH by lia. f_equal. lia.
Qed.

(** From the start it grows to the right as far as the end. *)
Lemma extend_right_same : forall s fuel k,
  k + fuel = length s ->
  extend_right s s fuel false (length s) (length s) 0 0 k = (0, 0, length s).
Proof.
  induction fuel as [|fuel IH]; intros k Hk; cbn [extend_right].
  - now replace k with (length s) by lia.
  - cbn [Nat.add]. rewrite same_refl by lia.
    replace (k <? length s) with true by (symmetry; apply Nat.ltb_lt; lia).
    cbn [isbjunk Bool.eqb andb]. apply IH. lia.
Qed.

Lemma find_longest_match_same : forall s,
  find_longest_match s s (chain_b s) 0 (length s) 0 (length s) = (0, 0, length s).
Proof.
  intros s. unfold find_longest_match. rewrite Nat.sub_0_r.
  destruct (@rows_inv s (length s) 0 [] (0, 0, 0)) as (j2len & I);
    [lia | apply inv_start |].
  destruct (rows s (chain_b s) (length s) 0 0 (length s) [] (0, 0, 0))
    as [[bi bj] bk].
  destruct I as (A1 & A2 & _). simpl in A1, A2. subst bj.
  unfold extend at 2. rewrite extend_left_same by lia.
  rewrite extend_right_same by lia.
  unfold extend. cbn [extend_left]. cbn [Nat.add]. rewrite Nat.sub_diag.
  reflexivity.
Qed.

Lemma blocks_loop_done : forall a b b2j fuel blocks,
  blocks_loop a b b2j fuel [] blocks = blocks.
Proof. intros a b b2j [|fuel] blocks; reflexivity. Qed.

(** Two equal sequences match in one block that covers them. *)
Lemma matches_same : forall s, matches s s = length s.
Proof.
  intros s. unfold matches, get_matching_blocks.
  replace (2 * length s + 1) with (S (2 * length s)) by lia.
  cbn [blocks_loop]. rewrite find_longest_match_same.
  destruct (length s) as [|n] eqn:En.
  - reflexivity.
  - cbn [Nat.add]. rewrite Nat.ltb_irrefl.
    change (0 <? S n) with true. change (0 <? 0) with false.
    cbn [andb app]. rewrite blocks_loop_done. cbn. f_equal. lia.
Qed.

Lemma calculate_ratio_full : forall n, (calculate_ratio n (n + n) == 1)%Q.
Proof.
  intros n. unfold calculate_ratio.
  destruct (Nat.ltb_spec 0 (n + n)) as [H|H]; [|reflexivity].
  unfold Qeq. cbn [Qnum Qden]. rewrite Z.mul_1_r, Z.mul_1_l.
  rewrite <- positive_nat_Z, Nat2Pos.id by lia. f_equal. lia.
Qed.

Lemma ratio_same : forall s, (ratio s s == 1)%Q.
Proof.
  intros s. unfold ratio. rewrite matches_same. apply calculate_ratio_full.
Qed.

(** An empty sequence matches nothing. *)
Lemma matches_nil_l : forall b, matches [] b = 0.
Proof. reflexivity. Qed.

Lemma rows_nil_r : forall a m i bhi best,
  rows a (chain_b []) m i 0 bhi [] best = best.
Proof.
  induction m as [|m IH]; intros i bhi best; cbn [rows]; auto.
  destruct (nth_error a i); apply IH.
Qed.

Lemma extend_right_nil_r : forall a fuel junk ahi,
  extend_right a [] fuel junk ahi 0 0 0 0 = (0, 0, 0).
Proof.
  intros a [|fuel] junk ahi; cbn [extend_right]; auto.
  cbn [Nat.add Nat.ltb Nat.leb]. now rewrite andb_false_r.
Qed.

Lemma matches_nil_r : forall a, matches a [] = 0.
Proof.
  intros a. unfold matches, get_matching_blocks.
  replace (2 * length a + 1) with (S (2 * length a)) by lia.
  cbn [blocks_loop length]. unfold find_longest_match.
  rewrite rows_nil_r. unfold extend.
  cbn [extend_left]. rewrite extend_right_nil_r.
  cbn [extend_left]. rewrite extend_right_nil_r.
  change (0 <? 0) with false. cbn iota.
  rewrite blocks_loop_done. reflexivity.
Qed.

End DifflibFacts.

(** ** The fuel of [get_matching_blocks] is enough

    A block found in [a[alo:ahi]] lies inside that range, so each turn of
    the [while queue] loop replaces a range by at most two ranges that are
    shorter by the size of the block: [2 * len(a) + 1] turns empty the
    queue, and more fuel changes nothing. *)

Module DifflibFuel.
Import Difflib.

Definition bounded (B : nat) (d : j2len_t) : Prop :=
  forall j, j2len_get d j <= B.

Definition in_range (alo hi : nat) (best : block) : Prop :=
  alo <= fst (fst best) /\ fst (fst best) + size best <= hi.

Lemma bounded_pred : forall B d j, bounded B d -> j2len_get_pred d j <= B.
Proof. intros B d [|j] H; simpl; [lia | apply H]. Qed.

Lemma row_range : forall js i alo blo bhi j2len newj2len best,
  alo <= i -> bounded (i - alo) j2len -> bounded (S (i - alo)) newj2len ->
  in_range alo (S i) best ->
  bounded (S (i - alo)) (fst (row i blo bhi j2len js newj2len best))
  /\ in_range alo (S i) (snd (row i blo bhi j2len js newj2len best)).
Proof.
  induction js as [|j js IH]; intros i alo blo bhi j2len newj2len best Hi B N R;
    cbn [row]; auto.
  destruct (j <? blo); [now apply IH|].
  destruct (bhi <=? j); [auto|].
  assert (K := bounded_pred j B).
  apply IH; auto.
  - intros j'. simpl. destruct (j =? j'); [lia | apply N].
  - destruct (size best <? j2len_get_pred j2len j + 1); auto.
    unfold in_range. simpl. lia.
Qed.

Lemma rows_range : forall a b2j m i alo blo bhi j2len best,
  alo <= i -> bounded (i - alo) j2len -> in_range alo i best ->
  in_range alo (i + m) (rows a b2j m i blo bhi j2len best).
Proof.
  induction m as [|m IH]; intros i alo blo bhi j2len best Hi B R; cbn [rows].
  - now rewrite Nat.add_0_r.
  - set (js := match nth_error a i with
               | Some elt => b2j_get b2j elt
               | None => []
               end).
    destruct (@row_range js i alo blo bhi j2len [] best) as [N R']; auto.
    + intros j. simpl. lia.
    + destruct R. split; auto.
    + destruct (row i blo bhi j2len js [] best) as [newj2len best'].
      replace (i + S m) with (S i + m) by lia. apply IH; auto.
      replace (S i - alo) with (S (i - alo)) by lia. exact N.
Qed.

Lemma extend_left_range : forall a b junk alo blo besti bestj bestsize hi,
  in_range alo hi (besti, bestj, bestsize) ->
  in_range alo hi (extend_left a b junk alo blo besti bestj bestsize).
Proof.
  induction besti as [|besti IH]; intros bestj bestsize hi R; cbn [extend_left]; auto.
  destruct (Nat.ltb_spec alo (S besti)); cbn [andb]; auto.
  destruct ((blo <? bestj)
            && Bool.eqb (isbjunk (nth_error b (bestj - 1))) junk
            && same (nth_error a besti) (nth_error b (bestj - 1))); auto.
  apply IH. unfold in_range in *. simpl in *. lia.
Qed.

Lemma extend_right_range : forall a b fuel junk alo ahi bhi besti bestj bestsize,
  in_range alo ahi (besti, bestj, bestsize) ->
  in_range alo ahi (extend_right a b fuel junk ahi bhi besti bestj bestsize).
Proof.
  induction fuel as [|fuel IH]; intros junk alo ahi bhi besti bestj bestsize R;
    cbn [extend_right]; auto.
  destruct (Nat.ltb_spec (besti + bestsize) ahi); cbn [andb]; auto.
  destruct ((bestj + bestsize <? bhi)
            && Bool.eqb (isbjunk (nth_error b (bestj + bestsize))) junk
            && same (nth_error a (besti + bestsize))
                    (nth_error b (bestj + bestsize))); auto.
  apply IH. unfold in_range in *. simpl in *. lia.
Qed.

Lemma extend_range : forall a b junk alo ahi blo bhi best,
  in_range alo ahi best -> in_range alo ahi (extend a b junk alo ahi blo bhi best).
Proof.
  intros a b junk alo ahi blo bhi [[besti bestj] bestsize] R. unfold extend.
  assert (L := @extend_left_range a b junk alo blo besti bestj bestsize ahi R).
  destruct (extend_left a b junk alo blo besti bestj bestsize) as [[i j] k].
  now apply extend_right_range.
Qed.

(** The block found lies in the range searched. *)
Lemma find_longest_match_range : forall a b b2j alo ahi blo bhi,
  alo <= ahi ->
  in_range alo ahi (find_longest_match a b b2j alo ahi blo bhi).
Proof.
  intros a b b2j alo ahi blo bhi H. unfold find_longest_match.
  do 2 apply extend_range.
  assert (R : in_range alo (alo + (ahi - alo))
                (rows a b2j (ahi - alo) alo blo bhi [] (alo, blo, 0))).
  { apply rows_range; auto.
    - intros j. simpl. lia.
    - unfold in_range. simpl. lia. }
  now replace (alo + (ahi - alo)) with ahi in R by lia.
Qed.

(** The turns a queue can still take. *)
Fixpoint turns (queue : list (nat * nat * nat * nat)) : nat :=
  match queue with
  | [] => 0
  | (alo, ahi, _, _) :: tl => 2 * (ahi - alo) + 1 + turns tl
  end.

Definition ordered (queue : list (nat * nat * nat * nat)) : Prop :=
  Forall (fun r => fst (fst (fst r)) <= snd (fst (fst r))) queue.

Lemma blocks_loop_fuel : forall a b b2j fuel1 fuel2 queue blocks,
  ordered queue -> turns queue <= fuel1 -> turns queue <= fuel2 ->
  blocks_loop a b b2j fuel1 queue blocks = blocks_loop a b b2j fuel2 queue blocks.
Proof.
  induction fuel1 as [|fuel1 IH]; intros fuel2 queue blocks O H1 H2.
  - destruct queue as [|[[[alo ahi] blo] bhi] tl]; [|simpl in H1; lia].
    now destruct fuel2.
  - destruct queue as [|[[[alo ahi] blo] bhi] tl]; [now destruct fuel2|].
    destruct fuel2 as [|fuel2]; [simpl in H2; lia|].
    inversion O as [|? ? Hr Otl]; subst. simpl in Hr.
    cbn [blocks_loop].
    assert (R := @find_longest_match_range a b b2j alo ahi blo bhi Hr).
    destruct (find_longest_match a b b2j alo ahi blo bhi) as [[i j] k].
    unfold in_range in R. simpl in R. cbn [turns] in H1, H2.
    destruct (Nat.ltb_spec 0 k).
    + destruct ((alo <? i) && (blo <? j)), ((i + k <? ahi) && (j + k <? bhi));
        apply IH; try (repeat constructor; simpl; auto; lia);
        cbn [turns]; lia.
    + apply IH; auto; lia.
Qed.

(** More fuel than [get_matching_blocks] takes gives the same blocks. *)
Lemma blocks_loop_enough : forall a b fuel,
  2 * length a + 1 <= fuel ->
  blocks_loop a b (chain_b b) fuel [(0, length a, 0, length b)] []
  = blocks_loop a b (chain_b b) (2 * length a + 1) [(0, length a, 0, length b)] [].
Proof.
  intros a b fuel H. apply blocks_loop_fuel.
  - repeat constructor. simpl. lia.
  - simpl. lia.
  - simpl. lia.
Qed.

End DifflibFuel.

(** ** The DOI resolver *)

Module ResolverFacts.
Import Py.

(** The title the resolver compares: [result["title"][0]], when the
    candidate is a dict whose title is a list that starts with a string
    (or a non-empty string, whose first character is then taken). *)
Definition title_text (c : json) : option str :=
  match c with
  | JObj kv =>
      match lookup "title" kv with
      | Some (JArr (JStr t :: _)) => Some t
      | Some (JStr (ch :: _)) => Some [ch]
      | _ => None
      end
  | _ => None
  end.

(** The identifier of a candidate: its DOI field, the empty string when
    the field is absent. *)
Definition identifier (c : json) : json :=
  match c with
  | JObj kv =>
      match lookup "DOI" kv with
      | Some d => d
      | None => JStr ""
      end
  | _ => JStr ""
  end.

(** The similarity of a candidate title to the normalized input title. *)
Definition similarity_to (input t : str) : Q :=
  Difflib.ratio (clean_text_for_comparison t) input.

(** The year check on a candidate that passed the similarity test. *)
Definition year_check (year : str) (c : json) (kv : list (str * json))
  : Py.result flow :=
  match (if Str.truthy year then lookup "published-print" kv else None) with
  | Some published =>
      pub_year <- pub_year_of published ;;
      if negb (Str.eqb pub_year year) then Ok Continue
      else Ok (Return (identifier c))
  | None => Ok (Return (identifier c))
  end.

Lemma above_threshold_iff : forall q, above_threshold q = true <-> (0.85 < q)%Q.
Proof.
  intros q. unfold above_threshold. rewrite negb_true_iff.
  split; intros H.
  - apply Qnot_le_lt. intros L. apply Qle_bool_iff in L. congruence.
  - destruct (Qle_bool q 0.85) eqn:E; auto.
    apply Qle_bool_iff in E. exfalso. apply (Qlt_not_le _ _ H E).
Qed.

(** The loop body on a candidate with a title text. *)
Lemma examine_titled : forall input year kv t,
  title_text (JObj kv) = Some t ->
  examine input year (JObj kv)
  = if above_threshold (similarity_to input t)
    then year_check year (JObj kv) kv
    else Ok Continue.
Proof.
  intros input year kv t H. unfold examine, year_check, similarity_to, identifier.
  unfold title_text in H. cbn [contains getitem bind].
  destruct (lookup "title" kv) as [[| | | |s|l|]|] eqn:E; try discriminate.
  - destruct s as [|ch s]; [discriminate|]. inversion H; subst t.
    cbn [bind truthy Str.truthy negb getitem0 clean_value].
    destruct (above_threshold _); [|reflexivity].
    destruct (Str.truthy year); cbn [bind contains get]; [|reflexivity].
    destruct (lookup "published-print" kv) as [pp|]; cbn [bind]; [|reflexivity].
    destruct (pub_year_of pp) as [y|e]; cbn [bind]; [|reflexivity].
    destruct (negb (Str.eqb y year)); reflexivity.
  - destruct l as [|[| | | |s| |] l]; try discriminate. inversion H; subst t.
    cbn [bind truthy negb getitem0 clean_value].
    destruct (above_threshold _); [|reflexivity].
    destruct (Str.truthy year); cbn [bind contains get]; [|reflexivity].
    destruct (lookup "published-print" kv) as [pp|]; cbn [bind]; [|reflexivity].
    destruct (pub_year_of pp) as [y|e]; cbn [bind]; [|reflexivity].
    destruct (negb (Str.eqb y year)); reflexivity.
Qed.

Lemma year_check_return : forall year c kv v,
  year_check year c kv = Ok (Return v) -> v = identifier c.
Proof.
  intros year c kv v. unfold year_check.
  destruct (if Str.truthy year then lookup "published-print" kv else None)
    as [pp|].
  - destruct (pub_year_of pp) as [y|e]; cbn [bind]; [|discriminate].
    destruct (negb (Str.eqb y year)); [discriminate|]. congruence.
  - congruence.
Qed.

(** A candidate is accepted only on a title text above the threshold, and
    what is returned is its identifier. *)
Lemma examine_return : forall input year c v,
  examine input year c = Ok (Return v) ->
  v = identifier c
  /\ exists t, title_text c = Some t /\ above_threshold (similarity_to input t) = true.
Proof.
  intros input year c v H.
  destruct (title_text c) as [t|] eqn:T.
  - destruct c; try discriminate T.
    rewrite (examine_titled input year _ T) in H.
    destruct (above_threshold (similarity_to input t)) eqn:A; [|discriminate].
    split; eauto using year_check_return.
  - exfalso. unfold examine in H. destruct c as [| | | |s|l|kv];
      cbn [contains getitem bind] in H; try discriminate.
    + destruct (is_substring "title" s); cbn [negb bind] in H; discriminate.
    + destruct (existsb (is_str "title") l); cbn [negb bind] in H; discriminate.
    + unfold title_text in T.
      destruct (lookup "title" kv) as [[|b|z|r|s|l|o]|];
        cbn [negb bind truthy getitem0 clean_value] in H; try discriminate.
      * destruct b; discriminate.
      * destruct (negb (z =? 0)%Z); discriminate.
      * destruct (negb (Str.eqb r "0.0" || Str.eqb r "-0.0")); discriminate.
      * destruct s; [discriminate H | discriminate T].
      * destruct l as [|[| | | |s| |] l];
          cbn [negb bind truthy getitem0 clean_value] in H; discriminate.
      * destruct o; discriminate.
Qed.

(** The loop returns at the first candidate that is not skipped. *)
Lemma for_results_first : forall input year pre c post v,
  (forall x, In x pre -> examine input year x = Ok Continue) ->
  examine input year c = Ok (Return v) ->
  for_results input year (pre ++ c :: post) = Ok v.
Proof.
  induction pre as [|x pre IH]; intros c post v Hpre Hc; cbn [app for_results].
  - now rewrite Hc.
  - rewrite (Hpre x) by now left. cbn [bind]. apply IH; auto.
    intros y Hy. apply Hpre. now right.
Qed.

Lemma for_results_skip : forall input year c rest,
  examine input year c = Ok Continue ->
  for_results input year (c :: rest) = for_results input year rest.
Proof. intros input year c rest H. cbn [for_results]. now rewrite H. Qed.

Section Registry.

Variable requests_get : str -> params -> reply.
Variables title authors year : str.

Definition clean_title_of (t : str) : str :=
  Str.replace_char newline " " (Str.strip t).

(** Every exception of the [try] block ends in the handler. *)
Lemma search_caught :
  search_crossref_doi requests_get title authors year
  = match search_body requests_get (clean_title_of title) year with
    | Ok v => (v, [])
    | Raise e => (JStr "", [ErrorSearchingDOI e])
    end.
Proof.
  unfold search_crossref_doi, clean_title_of.
  now destruct (search_body requests_get _ year).
Qed.

(** A 200 response whose items are a non-empty list goes to the loop. *)
Lemma search_body_items : forall results message items,
  requests_get base_url (search_params (clean_title_of title))
  = Response 200 (Some results) ->
  getitem results "message" = Ok message ->
  getitem message "items" = Ok (JArr items) ->
  items <> [] ->
  search_body requests_get (clean_title_of title) year
  = for_results (clean_text_for_comparison (clean_title_of title)) year items.
Proof.
  intros results message items Hget Hm Hi Hne.
  unfold search_body. rewrite Hget. cbn [Z.eqb Pos.eqb response_json bind].
  rewrite Hm. cbn [bind]. rewrite Hi. cbn [bind truthy iterate].
  destruct items; [congruence | reflexivity].
Qed.

End Registry.

End ResolverFacts.

(** ** Normal forms and letter case *)

Module Similarity.
Import Str StrFacts CleanText.

(** ASCII punctuation, the characters of [string.punctuation]. *)
Definition ispunct (c : ascii) : bool :=
  between 33 47 c || between 58 64 c || between 91 96 c || between 123 126 c.

(** A title without its punctuation and in lower case. *)
Definition letters_of (s : str) : str :=
  lower (filter (fun c => negb (ispunct c)) s).

Ltac each_char c :=
  destruct c as [[] [] [] [] [] [] [] []]; reflexivity.

Lemma lower_char_isspace : forall c, isspace (lower_char c) = isspace c.
Proof. intros c. each_char c. Qed.

Lemma lower_char_kept : forall c, kept (lower_char c) = kept c.
Proof. intros c. each_char c. Qed.

Lemma lower_blank_others : forall s,
  lower (blank_others s) = blank_others (lower s).
Proof.
  intros s. unfold lower, blank_others. rewrite !map_map.
  apply map_ext. intros c. rewrite lower_char_kept.
  now destruct (kept c).
Qed.

Lemma lower_collapse_spaces : forall s r,
  lower (collapse_spaces r s) = collapse_spaces r (lower s).
Proof.
  induction s as [|c s IH]; intros r; simpl; auto.
  rewrite lower_char_isspace. destruct (isspace c).
  - destruct r; simpl; now rewrite IH.
  - simpl. now rewrite IH.
Qed.

(** Letter case does not reach the normal form. *)
Lemma clean_text_lower : forall a b,
  lower a = lower b -> clean_text_for_comparison a = clean_text_for_comparison b.
Proof.
  intros a b H. rewrite !clean_text_normal_form. unfold normalize_replacing.
  now rewrite !lower_collapse_spaces, !lower_blank_others, H.
Qed.

End Similarity.

(** * The claims *)

Import Py ResolverFacts.

(** Inputs of the scenarios. *)
Module Examples.

(** An entry whose quoted title is a single space. *)
Definition blank_title : str :=
  lit "2020 - X. " ++ dquote :: lit " " ++ dquote :: lit ". Y".

(** An entry with a range of years in its title. *)
Definition year_range : str :=
  lit "2020 - Smith. " ++ dquote :: lit "Trends 1990 - 2000" ++ dquote :: lit ". J.".

(** A second well-formed entry. *)
Definition second_entry : str :=
  lit "2021 - Doe, A. " ++ dquote :: lit "On Trees" ++ dquote :: lit ". Proc. of X, 12-19. ".

(** Two candidates of the registry: a related title, and the title asked
    for, printed in 2020. *)
Definition far_fields : list (str * json) :=
  [(lit "title", JArr [JStr "A Study of Graph Theory"]);
   (lit "DOI", JStr "10.1/y")].

Definition far_item : json := JObj far_fields.

Definition print_2020 : json :=
  JObj [(lit "date-parts", JArr [JArr [JInt 2020; JInt 5]])].

Definition close_fields : list (str * json) :=
  [(lit "title", JArr [JStr "A Study of Graphs!"]);
   (lit "DOI", JStr "10.1/x");
   (lit "published-print", print_2020)].

Definition close_item : json := JObj close_fields.

(** Candidates with the title asked for whose print-publication date
    holds no year: an empty object, and a date whose year is null. *)
Definition dateless_fields : list (str * json) :=
  [(lit "title", JArr [JStr "A Study of Graphs"]);
   (lit "DOI", JStr "10.1/z");
   (lit "published-print", JObj [])].

Definition null_year_fields : list (str * json) :=
  [(lit "title", JArr [JStr "A Study of Graphs"]);
   (lit "DOI", JStr "10.1/z");
   (lit "published-print", JObj [(lit "date-parts", JArr [JArr [JNull]])])].

Definition body_of (items : json) : json :=
  JObj [(lit "message", JObj [(lit "items", items)])].

(** A registry whose only candidate is the first of these. *)
Definition dateless_registry (_ : str) (_ : params) : reply :=
  Response 200 (Some (body_of (JArr [JObj dateless_fields]))).

Definition registry (_ : str) (_ : params) : reply :=
  Response 200 (Some (body_of (JArr [far_item; close_item]))).

Definition offline (_ : str) (_ : params) : reply := Failed RequestException.

End Examples.

(** C1 (the code differs): on the scenario text the extractor returns one
    record with year 2020, authors "Smith, J" and title "A Study of
    Graphs", but its venue is " Journal of Math", with a leading space:
    [strip('.')] runs after [strip()] and uncovers the space behind the
    period that follows the title. *)
Theorem scenario_venue_keeps_space :
  extract_publications scenario
  = [Publication "2020" "Smith, J" "A Study of Graphs" " Journal of Math"].
Proof. vm_compute. reflexivity. Qed.

(** C2, as stated, fails: on "a.b" the function gives "a b", while removing
    the period gives "ab". *)
Lemma clean_text_gap_for_period :
  clean_text_for_comparison "a.b" = lit "a b"
  /\ CleanText.normalize_removing "a.b" = lit "ab".
Proof. split; vm_compute; reflexivity. Qed.

(** C2, amended: [clean_text_for_comparison] replaces every character that
    is not a word character, whitespace or a hyphen by a space, then
    replaces every run of whitespace by one space, lower-cases, and trims
    whitespace at both ends. *)
Theorem clean_text_replaces_then_collapses : forall text : str,
  clean_text_for_comparison text
  = Str.strip (Str.lower
      (CleanText.collapse_spaces false (CleanText.blank_others text))).
Proof. intros text. apply CleanText.clean_text_normal_form. Qed.

(** C3 (the code differs): a chunk whose quoted title holds only whitespace
    passes the title test and is emitted with an empty title. *)
Theorem blank_title_is_emitted :
  extract_publications Examples.blank_title
  = [Publication "2020" "X" "" " Y"].
Proof. vm_compute. reflexivity. Qed.

(** C4, as stated, fails: an entry with a leading year marker and a quoted
    title, whose title holds a range of years, is cut at the range and
    gives no record. *)
Lemma year_range_entry_is_lost :
  Entries.marked_entry Examples.year_range = true
  /\ extract_publications (concat [Examples.year_range]) = [].
Proof. split; vm_compute; reflexivity. Qed.

(** C4, amended: for a text made of N entries, each with a leading year
    marker, a quoted title, and no other place where the year marker
    matches, the extractor returns the records of the entries, one per
    entry, in the order of the entries. *)
Theorem extract_concat_valid_entries : forall es : list str,
  forallb Entries.valid_entry es = true ->
  extract_publications (concat es) = concat (map extract_publications es)
  /\ Forall (fun e => exists r, extract_publications e = [r]) es
  /\ length (extract_publications (concat es)) = length es.
Proof.
  intros es H.
  assert (F : Forall (fun e => exists r, extract_publications e = [r]) es).
  { apply Forall_forall. intros e He.
    rewrite forallb_forall in H. specialize (H e He).
    rewrite Entries.extract_one_entry by assumption.
    apply Entries.extract_step_valid. now apply Entries.valid_is_marked. }
  assert (E : extract_publications (concat es)
              = concat (map extract_publications es)).
  { rewrite Entries.extract_entries by assumption. f_equal.
    apply map_ext_in. intros e He. symmetry.
    apply Entries.extract_one_entry.
    rewrite forallb_forall in H. now apply H. }
  repeat split; auto.
  rewrite E. clear E H. induction F as [|e es [r Hr] F IH]; simpl; auto.
  rewrite length_app, Hr, IH. reflexivity.
Qed.

Lemma extract_concat_valid_entries_witness :
  extract_publications (concat [scenario; Examples.second_entry])
  = concat (map extract_publications [scenario; Examples.second_entry])
  /\ Forall (fun e => exists r, extract_publications e = [r])
            [scenario; Examples.second_entry]
  /\ length (extract_publications (concat [scenario; Examples.second_entry]))
     = length [scenario; Examples.second_entry].
Proof.
  apply (extract_concat_valid_entries [scenario; Examples.second_entry]).
  vm_compute. reflexivity.
Defined.

(** C5: the resolver goes through the candidates in the order of the
    response; a candidate whose title similarity is at most 0.85 is
    rejected; and when every candidate before [c] is rejected and [c] is
    accepted, the resolver returns the identifier of [c] (the empty string
    when [c] has no DOI field), and the similarity of [c] is above 0.85. *)
Theorem resolver_returns_first_accepted :
  forall (requests_get : str -> params -> reply) (title authors year : str),
    let input := clean_text_for_comparison (clean_title_of title) in
    (forall c t,
        title_text c = Some t -> (similarity_to input t <= 0.85)%Q ->
        examine input year c = Ok Continue)
    /\ (forall results message pre c post v,
          requests_get base_url (search_params (clean_title_of title))
          = Response 200 (Some results) ->
          getitem results "message" = Ok message ->
          getitem message "items" = Ok (JArr (pre ++ c :: post)) ->
          (forall x, In x pre -> examine input year x = Ok Continue) ->
          examine input year c = Ok (Return v) ->
          search_crossref_doi requests_get title authors year = (v, [])
          /\ v = identifier c
          /\ exists t, title_text c = Some t /\ (0.85 < similarity_to input t)%Q).
Proof.
  intros requests_get title authors year input. split.
  - intros c t T L. destruct c; try discriminate T.
    rewrite (examine_titled input year _ T).
    destruct (above_threshold (similarity_to input t)) eqn:A; auto.
    apply above_threshold_iff in A. exfalso. apply (Qlt_not_le _ _ A L).
  - intros results message pre c post v Hget Hm Hi Hpre Hc.
    destruct (examine_return _ _ _ Hc) as (Hv & t & T & A).
    split; [|split; [assumption|]].
    + rewrite search_caught.
      rewrite (search_body_items requests_get title year Hget Hm Hi)
        by now destruct pre.
      fold input. erewrite for_results_first; eauto.
    + exists t. split; [assumption|]. now apply above_threshold_iff.
Qed.

Lemma resolver_returns_first_accepted_witness :
  search_crossref_doi Examples.registry "A study of graphs" "" "2020"
  = (JStr "10.1/x", []).
Proof.
  refine (proj1 (proj2 (resolver_returns_first_accepted
                          Examples.registry "A study of graphs" "" "2020")
                       (Examples.body_of (JArr [Examples.far_item; Examples.close_item]))
                       (JObj [(lit "items", JArr [Examples.far_item; Examples.close_item])])
                       [Examples.far_item] Examples.close_item [] (JStr "10.1/x")
                       _ _ _ _ _)).
  - reflexivity.
  - reflexivity.
  - reflexivity.
  - intros x [<-|[]]. vm_compute. reflexivity.
  - vm_compute. reflexivity.
Defined.

(** C6, as stated, fails: a candidate whose print-publication date holds
    no year does not pass under a year hint.  The two candidates have the
    title asked for and are accepted without a hint; under the hint 2020
    the year read from a date without [date-parts] is the empty string,
    the year read from a null year is "None", and both are skipped: the
    resolver returns the empty string. *)
Lemma print_date_without_year_is_skipped :
  examine "a study of graphs" "" (JObj Examples.dateless_fields)
  = Ok (Return (JStr "10.1/z"))
  /\ pub_year_of (JObj []) = Ok []
  /\ examine "a study of graphs" "2020" (JObj Examples.dateless_fields) = Ok Continue
  /\ examine "a study of graphs" "" (JObj Examples.null_year_fields)
     = Ok (Return (JStr "10.1/z"))
  /\ pub_year_of (JObj [(lit "date-parts", JArr [JArr [JNull]])]) = Ok (lit "None")
  /\ examine "a study of graphs" "2020" (JObj Examples.null_year_fields) = Ok Continue
  /\ search_crossref_doi Examples.dateless_registry "A Study of Graphs" "" "2020"
     = (JStr "", []).
Proof. repeat split; vm_compute; reflexivity. Qed.

(** C6, amended: the year filter looks at the field [published-print],
    not at whether it holds a year.  For a candidate with a title, when a
    year hint is given and the candidate has the field, it is rejected
    whenever the year read from the field, the text of
    [date-parts[0][0]] with [[[""]]] for a missing [date-parts], differs
    from the hint, and the loop goes on with the next one; a candidate
    without the field is judged on its similarity alone, whatever the
    hint. *)
Theorem year_hint_only_checked_against_print_date :
  forall (input year : str) (kv : list (str * json)) (t : str),
    title_text (JObj kv) = Some t ->
    (forall published y rest,
        year <> [] ->
        lookup "published-print" kv = Some published ->
        pub_year_of published = Ok y -> y <> year ->
        examine input year (JObj kv) = Ok Continue
        /\ for_results input year (JObj kv :: rest) = for_results input year rest)
    /\ (lookup "published-print" kv = None ->
        examine input year (JObj kv)
        = if above_threshold (similarity_to input t)
          then Ok (Return (identifier (JObj kv)))
          else Ok Continue).
Proof.
  intros input year kv t T. split.
  - intros published y rest Hyear Hp Hy Hne.
    assert (E : examine input year (JObj kv) = Ok Continue).
    { rewrite (examine_titled input year _ T).
      destruct (above_threshold (similarity_to input t)); auto.
      unfold year_check. destruct year as [|c year]; [congruence|].
      cbn [Str.truthy]. rewrite Hp, Hy. cbn [bind].
      destruct (Str.eqb y (c :: year)) eqn:Q; auto.
      apply StrFacts.eqb_eq in Q. congruence. }
    split; auto. now apply for_results_skip.
  - intros Hp. rewrite (examine_titled input year _ T).
    unfold year_check. rewrite Hp. now destruct (Str.truthy year).
Qed.

Lemma year_hint_only_checked_against_print_date_witness :
  examine "a study of graphs" "2021" Examples.close_item = Ok Continue
  /\ examine "a study of graph theory" "2021" Examples.far_item
     = Ok (Return (JStr "10.1/y")).
Proof.
  split.
  - refine (proj1 (proj1 (year_hint_only_checked_against_print_date
                            "a study of graphs" "2021" Examples.close_fields
                            (t := "A Study of Graphs!") eq_refl)
                         Examples.print_2020 "2020" [] _ eq_refl eq_refl _)).
    + discriminate.
    + discriminate.
  - exact (proj2 (year_hint_only_checked_against_print_date
                    "a study of graph theory" "2021" Examples.far_fields
                    (t := "A Study of Graph Theory") eq_refl) eq_refl).
Defined.

(** C7: the resolver returns in every case.  Whatever the [try] block
    raises is caught and turned into the empty string and a warning; in
    particular a failure of the request, a status other than 200, a body
    that is not JSON and a body without [message] or [items] all give the
    empty string. *)
Theorem resolver_never_raises :
  forall (requests_get : str -> params -> reply) (title authors year : str),
    let clean_title := clean_title_of title in
    let answer := search_crossref_doi requests_get title authors year in
    answer = match search_body requests_get clean_title year with
             | Ok v => (v, [])
             | Raise e => (JStr "", [ErrorSearchingDOI e])
             end
    /\ (forall e,
          requests_get base_url (search_params clean_title) = Failed e ->
          answer = (JStr "", [ErrorSearchingDOI e]))
    /\ (forall status body,
          requests_get base_url (search_params clean_title) = Response status body ->
          status <> 200%Z ->
          answer = (JStr "", []))
    /\ (requests_get base_url (search_params clean_title) = Response 200 None ->
        answer = (JStr "", [ErrorSearchingDOI ValueError]))
    /\ (forall results e,
          requests_get base_url (search_params clean_title)
          = Response 200 (Some results) ->
          (message <- getitem results "message" ;; getitem message "items") = Raise e ->
          answer = (JStr "", [ErrorSearchingDOI e])).
Proof.
  intros requests_get title authors year clean_title answer.
  unfold answer. rewrite search_caught. fold clean_title.
  split; [reflexivity|]. unfold search_body. repeat split.
  - intros e H. now rewrite H.
  - intros status body H Hs. rewrite H.
    destruct (Z.eqb_spec status 200); [congruence | reflexivity].
  - intros H. now rewrite H.
  - intros results e H Hm. rewrite H. cbn [Z.eqb Pos.eqb response_json bind].
    destruct (getitem results "message") as [message|e']; cbn [bind] in *.
    + now rewrite Hm.
    + congruence.
Qed.

Lemma resolver_never_raises_witness :
  search_crossref_doi Examples.offline "A study of graphs" "" ""
  = (JStr "", [ErrorSearchingDOI RequestException]).
Proof.
  exact (proj1 (proj2 (resolver_never_raises
                         Examples.offline "A study of graphs" "" ""))
               RequestException eq_refl).
Defined.

(** C8, as stated, fails: "tide" against "diet" gives 2/8, and "diet"
    against "tide" gives 4/8. *)
Lemma ratio_depends_on_order :
  Difflib.ratio "tide" "diet" = (2 # 8)%Q
  /\ Difflib.ratio "diet" "tide" = (4 # 8)%Q
  /\ Qeq_bool (Difflib.ratio "tide" "diet") (Difflib.ratio "diet" "tide") = false.
Proof. repeat split; vm_compute; reflexivity. Qed.

(** C8, amended: the ratio does not depend on the order of the two strings
    when they are equal or when one of them is empty. *)
Theorem ratio_symmetric_when_equal_or_empty : forall a b : str,
  a = b \/ a = [] \/ b = [] ->
  (Difflib.ratio a b == Difflib.ratio b a)%Q.
Proof.
  intros a b [H|[H|H]]; subst.
  - reflexivity.
  - unfold Difflib.ratio.
    rewrite DifflibFacts.matches_nil_l, DifflibFacts.matches_nil_r.
    cbn [length Nat.add]. rewrite Nat.add_0_r. reflexivity.
  - unfold Difflib.ratio.
    rewrite DifflibFacts.matches_nil_l, DifflibFacts.matches_nil_r.
    cbn [length Nat.add]. rewrite Nat.add_0_r. reflexivity.
Qed.

Lemma ratio_symmetric_when_equal_or_empty_witness :
  (Difflib.ratio "tide" "" == Difflib.ratio "" "tide")%Q.
Proof.
  apply (@ratio_symmetric_when_equal_or_empty "tide" "").
  right. right. reflexivity.
Defined.

(** C9, as stated, fails: "a.b" and "ab" differ only in punctuation, and
    their normal forms "a b" and "ab" have similarity 4/5. *)
Lemma period_inside_a_word :
  Similarity.letters_of "a.b" = Similarity.letters_of "ab"
  /\ Difflib.ratio (clean_text_for_comparison "a.b") (clean_text_for_comparison "ab")
     = (4 # 5)%Q.
Proof. split; vm_compute; reflexivity. Qed.

(** C9, amended: two titles of code points below 256 that differ only in
    letter case, or that have the same normal form (as "Deep Learning: A
    Review!" and "deep learning a review" have), have similarity exactly 1
    after normalization.  The first case rests on [lower] mapping a
    character to one character that is a word character or whitespace
    when the original is, which holds on this range only. *)
Theorem same_normal_form_ratio_one : forall a b : str,
  Str.lower a = Str.lower b
  \/ clean_text_for_comparison a = clean_text_for_comparison b ->
  (Difflib.ratio (clean_text_for_comparison a) (clean_text_for_comparison b) == 1)%Q.
Proof.
  intros a b H.
  assert (E : clean_text_for_comparison a = clean_text_for_comparison b).
  { destruct H as [H|H]; auto. now apply Similarity.clean_text_lower. }
  rewrite E. apply DifflibFacts.ratio_same.
Qed.

Lemma same_normal_form_ratio_one_witness :
  (Difflib.ratio (clean_text_for_comparison "Deep Learning: A Review!")
                 (clean_text_for_comparison "deep learning a review") == 1)%Q.
Proof.
  apply (@same_normal_form_ratio_one
           "Deep Learning: A Review!" "deep learning a review").
  right. vm_compute. reflexivity.
Defined.

(** C10: [create_doi_url d] is "https://doi.org/" followed by [d] exactly
    when [d] is not empty and begins with "10.", and is the empty string
    otherwise. *)
Theorem create_doi_url_spec : forall d : str,
  (create_doi_url d = lit "https://doi.org/" ++ d
   <-> d <> [] /\ exists rest, d = lit "10." ++ rest)
  /\ (create_doi_url d = []
      <-> ~ (d <> [] /\ exists rest, d = lit "10." ++ rest))
  /\ create_doi_url "10.1000/xyz" = lit "https://doi.org/10.1000/xyz"
  /\ create_doi_url "" = lit ""
  /\ create_doi_url "invalid" = lit "".
Proof.
  intros d.
  assert (C : Str.truthy d && Str.startswith "10." d = true
              <-> d <> [] /\ exists rest, d = lit "10." ++ rest).
  { rewrite andb_true_iff, StrFacts.startswith_iff.
    destruct d; simpl; split; intros [H1 H2]; split; auto; congruence. }
  assert (X : create_doi_url "10.1000/xyz" = lit "https://doi.org/10.1000/xyz"
              /\ create_doi_url "" = lit ""
              /\ create_doi_url "invalid" = lit "")
    by (repeat split; reflexivity).
  split; [|split; [|exact X]]; unfold create_doi_url;
    destruct (Str.truthy d && Str.startswith "10." d) eqn:E.
  - split; [intros _; now apply C | reflexivity].
  - split; [intros H; discriminate H | intros H; apply C in H; congruence].
  - split; [intros H; discriminate H | intros H; exfalso; apply H; now apply C].
  - split; [intros _ H; apply C in H; congruence | reflexivity].
Qed.

(** * More of [streamlit_app.py] *)

(** ** Stripping *)

Module StripFacts.
Import Str StrFacts.

(** [s] starts with a character of the class [p]. *)
Definition starts_in (p : ascii -> bool) (s : str) : bool :=
  match s with
  | [] => false
  | c :: _ => p c
  end.

(** [s] ends with a character of the class [p]. *)
Definition ends_in (p : ascii -> bool) (s : str) : bool := starts_in p (rev s).

Lemma lstrip_by_starts : forall p s, starts_in p (lstrip_by p s) = false.
Proof.
  induction s as [|c s IH]; simpl; auto.
  destruct (p c) eqn:E; auto.
Qed.

Lemma lstrip_by_suffix : forall p s, exists u, s = u ++ lstrip_by p s.
Proof.
  induction s as [|c s [u IH]]; simpl.
  - exists []. reflexivity.
  - destruct (p c).
    + exists (c :: u). simpl. now f_equal.
    + exists []. reflexivity.
Qed.

Lemma rstrip_by_prefix : forall p s, exists w, s = rstrip_by p s ++ w.
Proof.
  intros p s. unfold rstrip_by.
  destruct (lstrip_by_suffix p (rev s)) as [u E].
  exists (rev u). rewrite <- rev_app_distr, <- E. now rewrite rev_involutive.
Qed.

Lemma rstrip_by_ends : forall p s, ends_in p (rstrip_by p s) = false.
Proof.
  intros p s. unfold ends_in, rstrip_by. rewrite rev_involutive.
  apply lstrip_by_starts.
Qed.

Lemma rstrip_by_starts : forall p s,
  starts_in p s = false -> starts_in p (rstrip_by p s) = false.
Proof.
  intros p s H. destruct (rstrip_by_prefix p s) as [w E].
  destruct (rstrip_by p s) as [|c r]; auto.
  rewrite E in H. exact H.
Qed.

(** A stripped string neither starts nor ends in the class. *)
Lemma strip_by_edges : forall p s,
  starts_in p (strip_by p s) = false /\ ends_in p (strip_by p s) = false.
Proof.
  intros p s. unfold strip_by. split.
  - apply rstrip_by_starts, lstrip_by_starts.
  - apply rstrip_by_ends.
Qed.

Lemma forallb_lstrip_by : forall (q p : ascii -> bool) s,
  forallb q s = true -> forallb q (lstrip_by p s) = true.
Proof.
  intros q p s H. destruct (lstrip_by_suffix p s) as [u E].
  rewrite E, forallb_app in H. now apply andb_prop in H.
Qed.

Lemma forallb_rstrip_by : forall (q p : ascii -> bool) s,
  forallb q s = true -> forallb q (rstrip_by p s) = true.
Proof.
  intros q p s H. destruct (rstrip_by_prefix p s) as [w E].
  rewrite E, forallb_app in H. now apply andb_prop in H.
Qed.

Lemma forallb_strip_by : forall (q p : ascii -> bool) s,
  forallb q s = true -> forallb q (strip_by p s) = true.
Proof.
  intros q p s H. unfold strip_by. now apply forallb_rstrip_by, forallb_lstrip_by.
Qed.

Lemma lstrip_by_id : forall p s, starts_in p s = false -> lstrip_by p s = s.
Proof. intros p [|c s] H; simpl in *; auto. now rewrite H. Qed.

Lemma rstrip_by_id : forall p s, ends_in p s = false -> rstrip_by p s = s.
Proof.
  intros p s H. unfold rstrip_by. rewrite lstrip_by_id by exact H.
  apply rev_involutive.
Qed.

Lemma strip_by_id : forall p s,
  starts_in p s = false -> ends_in p s = false -> strip_by p s = s.
Proof.
  intros p s H1 H2. unfold strip_by. rewrite lstrip_by_id by assumption.
  now apply rstrip_by_id.
Qed.

Lemma strip_by_all : forall p s, forallb p s = true -> strip_by p s = [].
Proof.
  intros p s H. unfold strip_by. now rewrite lstrip_by_all.
Qed.

End StripFacts.

(** ** The records of [extract_publications] *)

Module Records.
Import Str StrFacts StripFacts Re ReFacts Entries.

(** A year marker somewhere in the text. *)
Definition has_marker (s : str) : bool :=
  existsb (fun i => starts_marker (skipn i s)) (seq 0 (length s)).

Lemma no_marker_at : forall s i,
  has_marker s = false -> starts_marker (skipn i s) = false.
Proof.
  intros s i H. destruct (Nat.lt_ge_cases i (length s)) as [L|L].
  - unfold has_marker in H.
    destruct (starts_marker (skipn i s)) eqn:E; auto.
    assert (X : existsb (fun i => starts_marker (skipn i s)) (seq 0 (length s)) = true).
    { apply existsb_exists. exists i. split; auto. apply in_seq. lia. }
    congruence.
  - now rewrite skipn_all2.
Qed.

(** [re.match] on the year pattern fails where there is no marker. *)
Lemma match_year_none : forall s,
  starts_marker s = false -> Re.match_ (re_year_marker true) s = None.
Proof.
  intros s H. unfold Re.match_, match_here, re_year_marker.
  rewrite run_Seq, run_Group, run_digits. unfold starts_marker in H.
  destruct s as [|d1 [|d2 [|d3 [|d4 tl]]]]; auto.
  destruct (isdecimal d1 && isdecimal d2 && isdecimal d3 && isdecimal d4); auto.
  cbn [andb] in H. unfold set_cap. cbn [m_pos m_rest m_caps].
  rewrite run_Seq, run_star_chr, star_chr_only_longest.
  - rewrite run_Seq. unfold Lit. rewrite run_Chr.
    destruct (lstrip_by isspace tl) as [|c tl2]; auto. now rewrite H.
  - intros pos' c tl' Hc. rewrite run_Seq. unfold Lit. rewrite run_Chr.
    now rewrite space_not_hyphen.
Qed.

Lemma not_dquote_sym : forall c, not_dquote c = true -> Ascii.eqb dquote c = false.
Proof.
  intros c H. unfold not_dquote in H. apply negb_true_iff in H.
  destruct (Ascii.eqb_spec dquote c) as [E|]; auto.
  subst c. now rewrite Ascii.eqb_refl in H.
Qed.

(** The title pattern fails where there is no quoted title. *)
Lemma match_here_quoted_none : forall pos s ma,
  quoted_at s = false -> match_here re_quoted pos s ma = None.
Proof.
  intros pos s ma H. unfold match_here, re_quoted, Lit, Plus.
  rewrite run_Seq, run_Chr. destruct s as [|c tl]; auto.
  unfold quoted_at in H. destruct (Ascii.eqb dquote c); auto. cbn [andb] in H.
  rewrite run_Seq, run_Group, run_Seq, run_Chr.
  destruct tl as [|x tl]; auto.
  change (negb (Ascii.eqb x dquote)) with (not_dquote x).
  cbn [prefix_len lstrip_by] in H.
  destruct (not_dquote x) eqn:Hx; auto.
  change (0 <? S (prefix_len not_dquote tl)) with true in H. cbn [andb] in H.
  rewrite run_star_chr.
  change (fun c0 => negb (Ascii.eqb c0 dquote)) with not_dquote.
  rewrite star_chr_only_longest.
  - unfold set_cap. cbn [m_pos m_rest m_caps]. rewrite run_Chr.
    destruct (lstrip_by not_dquote tl); [reflexivity | discriminate].
  - intros pos' c' tl' Hc. unfold set_cap. cbn [m_pos m_rest m_caps].
    rewrite run_Chr. now rewrite not_dquote_sym.
Qed.

(** What [re.search] on the title pattern finds: the first quoted title. *)
Lemma search_quoted_found : forall s pos m,
  search_at re_quoted pos s false = Some m ->
  exists pre t post,
    s = pre ++ dquote :: t ++ dquote :: post
    /\ t <> [] /\ forallb not_dquote t = true
    /\ m = Match (pos + length pre) (S (S (pos + length pre + length t)))
                 [(1, (S (pos + length pre), S (pos + length pre + length t)))].
Proof.
  induction s as [|c s IH]; intros pos m H.
  - rewrite search_at_nil, match_here_quoted_none in H by reflexivity.
    discriminate.
  - cbn [search_at] in H. destruct (quoted_at (c :: s)) eqn:Q.
    + destruct (quoted_at_split _ Q) as (t & post & E & Hne & Ht).
      rewrite E in H. rewrite match_here_quoted in H by assumption.
      inversion H; subst m. exists [], t, post.
      cbn [app length]. rewrite !Nat.add_0_r. auto.
    + rewrite match_here_quoted_none in H by assumption.
      apply IH in H. destruct H as (pre & t & post & E & Hne & Ht & Em).
      exists (c :: pre), t, post. subst s m. cbn [app length].
      split; [reflexivity|]. split; [assumption|]. split; [assumption|].
      replace (pos + S (length pre)) with (S pos + length pre) by lia.
      reflexivity.
Qed.

Lemma slice_middle : forall (u t v : str),
  slice (length u) (length u + length t) (u ++ t ++ v) = t.
Proof.
  intros u t v. unfold slice.
  rewrite skipn_app, skipn_all, Nat.sub_diag. cbn [skipn app].
  replace (length u + length t - length u) with (length t) by lia.
  rewrite firstn_app, firstn_all, Nat.sub_diag, firstn_O. apply app_nil_r.
Qed.

(** A record comes from one chunk of the text. *)
Lemma in_extract_publications : forall text p,
  In p (extract_publications text) -> exists e, In p (extract_step [] e).
Proof.
  intros text p H. unfold extract_publications in H.
  rewrite fold_extract_step in H. cbn [app] in H.
  apply in_concat in H. destruct H as (l & Hl & Hp).
  apply in_map_iff in Hl. destruct Hl as (e & E & _). subst l. eauto.
Qed.

(** What the chunk of a record looks like, and how the fields are cut. *)
Lemma extract_step_record : forall e p,
  In p (extract_step [] e) ->
  exists d1 d2 d3 d4 tl y pre t post,
    strip e = d1 :: d2 :: d3 :: d4 :: tl
    /\ forallb isdecimal [d1; d2; d3; d4] = true
    /\ strip e = pre ++ dquote :: t ++ dquote :: post
    /\ t <> [] /\ forallb not_dquote t = true
    /\ p = Publication [d1; d2; d3; d4]
             (rstrip_chars "." (strip (slice y (length pre) (strip e))))
             (strip t)
             (strip_chars "." (strip post)).
Proof.
  intros e p H. unfold extract_step in H.
  destruct (negb (truthy (strip e))); [destruct H|].
  destruct (starts_marker (strip e)) eqn:M.
  2:{ rewrite match_year_none in H by assumption. destruct H. }
  destruct (match_year_marker _ M) as [y Hy]. rewrite Hy in H.
  destruct (Re.search re_quoted (strip e)) as [m|] eqn:S; [|destruct H].
  unfold Re.search in S. apply search_quoted_found in S.
  destruct S as (pre & t & post & E & Hne & Ht & Em).
  cbn [Nat.add] in Em. subst m.
  destruct H as [H|[]]. subst p.
  unfold starts_marker in M.
  destruct (strip e) as [|d1 [|d2 [|d3 [|d4 tl]]]] eqn:Es; try discriminate.
  apply andb_prop in M. destruct M as [D _].
  exists d1, d2, d3, d4, tl, y, pre, t, post.
  repeat split; auto.
  - cbn [forallb]. now rewrite andb_true_r, !andb_assoc.
  - unfold Re.group. cbn [span m_groups Nat.eqb fst snd m_end m_start].
    f_equal.
    + rewrite E.
      change (dquote :: t ++ dquote :: post) with ([dquote] ++ t ++ dquote :: post).
      rewrite app_assoc.
      replace (S (length pre)) with (length (pre ++ [dquote]))
        by (rewrite length_app; simpl; lia).
      replace (S (length pre + length t)) with (length (pre ++ [dquote]) + length t)
        by (rewrite length_app; simpl; lia).
      now rewrite slice_middle.
    + unfold slice_from. rewrite E.
      assert (A : pre ++ dquote :: t ++ dquote :: post
                  = (pre ++ dquote :: t ++ [dquote]) ++ post).
      { rewrite <- app_assoc. cbn [app]. rewrite <- app_assoc. reflexivity. }
      rewrite A, skipn_app.
      replace (S (S (length pre + length t)))
        with (length (pre ++ dquote :: t ++ [dquote]))
        by (rewrite !length_app; cbn [length]; rewrite length_app; simpl; lia).
      rewrite skipn_all, Nat.sub_diag. reflexivity.
Qed.

Lemma search_entry_none : forall s pos ma,
  (forall i, starts_marker (skipn i s) = false) ->
  search_at re_entry_start pos s ma = None.
Proof.
  induction s as [|c s IH]; intros pos ma H.
  - now rewrite search_at_nil, match_here_entry_start.
  - cbn [search_at]. rewrite match_here_entry_start.
    rewrite (H 0 : starts_marker (c :: s) = false). cbn [andb].
    apply IH. intros i. apply (H (S i)).
Qed.

Lemma strip_no_marker : forall s,
  (forall i, starts_marker (skipn i s) = false) -> starts_marker (strip s) = false.
Proof.
  intros s H. unfold strip, strip_by.
  destruct (rstrip_by_prefix isspace (lstrip_by isspace s)) as [w E].
  destruct (starts_marker (rstrip_by isspace (lstrip_by isspace s))) eqn:M; auto.
  apply starts_marker_app with (x := w) in M. rewrite <- E in M.
  rewrite lstrip_by_skipn, H in M. discriminate.
Qed.

Lemma extract_step_no_marker : forall pubs e,
  starts_marker (strip e) = false -> extract_step pubs e = pubs.
Proof.
  intros pubs e H. unfold extract_step.
  destruct (negb (truthy (strip e))); auto.
  now rewrite match_year_none.
Qed.

(** A text without a year marker is one chunk, and gives nothing. *)
Lemma extract_no_marker : forall text,
  has_marker text = false -> extract_publications text = [].
Proof.
  intros text H. unfold extract_publications, Re.split.
  replace (2 * length text + 2) with (S (2 * length text + 1)) by lia.
  cbn [split_loop].
  rewrite search_entry_none by (intros i; now apply no_marker_at).
  cbn [fold_left]. apply extract_step_no_marker, strip_no_marker.
  intros i. now apply no_marker_at.
Qed.

(** Text in front of the first entry is a chunk of its own. *)
Lemma split_after_header : forall pre e es,
  pre <> [] -> has_marker pre = false ->
  forallb valid_entry (e :: es) = true ->
  Re.split re_entry_start (pre ++ concat (e :: es)) = pre :: e :: es.
Proof.
  intros pre e es Hne Hpre H. assert (Hlen := entries_length _ H).
  assert (Hm : starts_marker (concat (e :: es)) = true).
  { cbn [concat]. apply starts_marker_app.
    simpl in H. apply andb_prop in H. destruct H as [He _].
    now apply valid_entry_parts in He. }
  assert (Hin : forall i, i < length pre ->
                  starts_marker (skipn i (pre ++ concat (e :: es))) = false).
  { intros i Hi. rewrite skipn_app. replace (i - length pre) with 0 by lia.
    cbn [skipn]. rewrite starts_marker_inner; auto.
    - now apply no_marker_at.
    - intros E. apply (f_equal (@length ascii)) in E.
      rewrite length_skipn in E. simpl in E. lia. }
  unfold Re.split.
  replace (2 * length (pre ++ concat (e :: es)) + 2)
    with (S (2 * length (pre ++ concat (e :: es)) + 1)) by lia.
  cbn [split_loop]. rewrite search_at_skip.
  - destruct pre as [|c pre]; [congruence|].
    rewrite (search_at_head re_entry_start _ _ false (m := Match (0 + length (c :: pre)) (0 + length (c :: pre)) [])).
    + cbn [m_start m_end Nat.add]. rewrite Nat.eqb_refl.
      rewrite firstn_app, firstn_all, Nat.sub_diag, firstn_O, app_nil_r.
      rewrite skipn_app, skipn_all, Nat.sub_diag. cbn [skipn app].
      f_equal. cbn [concat]. simpl in H. apply andb_prop in H. destruct H as [He Hes].
      apply split_loop_entries; auto.
      cbn [length concat] in *. rewrite !length_app in *. lia.
    + rewrite match_here_entry_start. now rewrite Hm.
  - left. rewrite match_here_entry_start.
    assert (H0 : starts_marker (pre ++ concat (e :: es)) = false).
    { apply (Hin 0). destruct pre; [congruence | simpl; lia]. }
    now rewrite H0.
  - intros i Hi. rewrite match_here_entry_start. rewrite Hin by lia. reflexivity.
Qed.

End Records.

(** X1: a text in which the year marker (four digits, optional whitespace,
    a hyphen) matches nowhere gives no record; the empty text is one. *)
Theorem no_year_marker_no_records : forall text : str,
  Records.has_marker text = false -> extract_publications text = [].
Proof. intros text H. now apply Records.extract_no_marker. Qed.

Lemma no_year_marker_no_records_witness :
  extract_publications "Smith, J. A Study of Graphs, 2020. pp 1-9" = [].
Proof.
  apply (@no_year_marker_no_records "Smith, J. A Study of Graphs, 2020. pp 1-9").
  vm_compute. reflexivity.
Defined.

(** X2: the year of every record is made of exactly four decimal digits. *)
Theorem record_year_is_four_digits : forall (text : str) (p : publication),
  In p (extract_publications text) ->
  length (Year p) = 4 /\ forallb Str.isdecimal (Year p) = true.
Proof.
  intros text p H. apply Records.in_extract_publications in H.
  destruct H as [e H]. apply Records.extract_step_record in H.
  destruct H as (d1 & d2 & d3 & d4 & tl & y & pre & t & post
                 & _ & D & _ & _ & _ & E).
  subst p. cbn [Year]. auto.
Qed.

Lemma record_year_is_four_digits_witness :
  length (lit "2020") = 4 /\ forallb Str.isdecimal (lit "2020") = true.
Proof.
  apply (@record_year_is_four_digits scenario
           (Publication "2020" "Smith, J" "A Study of Graphs" " Journal of Math")).
  vm_compute. left. reflexivity.
Defined.

(** X3: the title of every record holds no double quote and neither
    starts nor ends with whitespace. *)
Theorem record_title_is_trimmed_and_unquoted :
  forall (text : str) (p : publication),
    In p (extract_publications text) ->
    forallb Entries.not_dquote (Title p) = true
    /\ StripFacts.starts_in Str.isspace (Title p) = false
    /\ StripFacts.ends_in Str.isspace (Title p) = false.
Proof.
  intros text p H. apply Records.in_extract_publications in H.
  destruct H as [e H]. apply Records.extract_step_record in H.
  destruct H as (d1 & d2 & d3 & d4 & tl & y & pre & t & post
                 & _ & _ & _ & _ & Ht & E).
  subst p. cbn [Title]. unfold Str.strip. split.
  - now apply StripFacts.forallb_strip_by.
  - apply StripFacts.strip_by_edges.
Qed.

Lemma record_title_is_trimmed_and_unquoted_witness :
  forallb Entries.not_dquote (lit "On Trees") = true
  /\ StripFacts.starts_in Str.isspace (lit "On Trees") = false
  /\ StripFacts.ends_in Str.isspace (lit "On Trees") = false.
Proof.
  apply (@record_title_is_trimmed_and_unquoted Examples.second_entry
           (Publication "2021" "Doe, A" "On Trees" " Proc. of X, 12-19")).
  vm_compute. left. reflexivity.
Defined.

(** X4: the authors of a record never end with a period, and its venue
    neither starts nor ends with a period. *)
Theorem record_authors_and_venue_lose_periods :
  forall (text : str) (p : publication),
    In p (extract_publications text) ->
    StripFacts.ends_in (Str.one_of ".") (Authors p) = false
    /\ StripFacts.starts_in (Str.one_of ".") (Venue p) = false
    /\ StripFacts.ends_in (Str.one_of ".") (Venue p) = false.
Proof.
  intros text p H. apply Records.in_extract_publications in H.
  destruct H as [e H]. apply Records.extract_step_record in H.
  destruct H as (d1 & d2 & d3 & d4 & tl & y & pre & t & post
                 & _ & _ & _ & _ & _ & E).
  subst p. cbn [Authors Venue]. split.
  - apply StripFacts.rstrip_by_ends.
  - apply StripFacts.strip_by_edges.
Qed.

Lemma record_authors_and_venue_lose_periods_witness :
  StripFacts.ends_in (Str.one_of ".") (lit "Smith, J") = false
  /\ StripFacts.starts_in (Str.one_of ".") (lit " Journal of Math") = false
  /\ StripFacts.ends_in (Str.one_of ".") (lit " Journal of Math") = false.
Proof.
  apply (@record_authors_and_venue_lose_periods scenario
           (Publication "2020" "Smith, J" "A Study of Graphs" " Journal of Math")).
  vm_compute. left. reflexivity.
Defined.

(** X5: text in front of the first entry that holds no year marker (a
    heading, say) is skipped: the records are those of the entries. *)
Theorem header_before_entries_is_skipped : forall (pre : str) (es : list str),
  Records.has_marker pre = false ->
  forallb Entries.valid_entry es = true ->
  extract_publications (pre ++ concat es) = extract_publications (concat es).
Proof.
  intros pre es Hpre Hes. destruct pre as [|c pre]; [reflexivity|].
  destruct es as [|e es].
  - cbn [concat]. rewrite app_nil_r.
    now rewrite Records.extract_no_marker.
  - rewrite (Entries.extract_entries _ Hes).
    unfold extract_publications at 1.
    rewrite Records.split_after_header by (auto; discriminate).
    rewrite Entries.fold_extract_step. cbn [map concat app].
    rewrite Records.extract_step_no_marker; [reflexivity|].
    apply Records.strip_no_marker. intros i. now apply Records.no_marker_at.
Qed.

Lemma header_before_entries_is_skipped_witness :
  extract_publications (lit "My publications: " ++ concat [scenario; Examples.second_entry])
  = extract_publications (concat [scenario; Examples.second_entry]).
Proof.
  apply (@header_before_entries_is_skipped
           "My publications: " [scenario; Examples.second_entry]).
  - vm_compute. reflexivity.
  - vm_compute. reflexivity.
Defined.

(** ** The normal form of [clean_text_for_comparison] *)

Module Normal.
Import Str StrFacts StripFacts CleanText Similarity.

(** A character of a normal form: a word character that is not upper
    case, a hyphen or a space. *)
Definition ok_char (c : ascii) : bool :=
  (isword c || Ascii.eqb c "-" || Ascii.eqb c " ") && negb (isupper c).

(** No two whitespace characters in a row. *)
Fixpoint single_spaced (s : str) : bool :=
  match s with
  | [] => true
  | c :: tl => negb (isspace c && starts_in isspace tl) && single_spaced tl
  end.

Ltac each_char_if c :=
  destruct c as [[] [] [] [] [] [] [] []]; vm_compute; intros; congruence.

Lemma kept_not_space : forall c,
  kept c = true -> isspace c = false -> ok_char (lower_char c) = true.
Proof. intros c. each_char_if c. Qed.

Lemma ok_char_kept : forall c, ok_char c = true -> kept c = true.
Proof. intros c. each_char_if c. Qed.

Lemma ok_char_space : forall c, ok_char c = true -> isspace c = true -> c = " "%char.
Proof. intros c. each_char_if c. Qed.

Lemma ok_char_lower : forall c, ok_char c = true -> lower_char c = c.
Proof. intros c. each_char_if c. Qed.

Lemma blank_kept : forall c, kept (if kept c then c else " "%char) = true.
Proof. intros c. destruct (kept c) eqn:K; auto. Qed.

Lemma collapse_chars : forall s r,
  forallb kept s = true ->
  forallb ok_char (lower (collapse_spaces r s)) = true.
Proof.
  induction s as [|c s IH]; intros r H; simpl; auto.
  simpl in H. apply andb_prop in H. destruct H as [K H].
  destruct (isspace c) eqn:Sp.
  - destruct r; simpl; auto.
  - simpl. rewrite kept_not_space by assumption. simpl. auto.
Qed.

Lemma collapse_single : forall s r,
  single_spaced (collapse_spaces r s) = true
  /\ (r = true -> starts_in isspace (collapse_spaces r s) = false).
Proof.
  induction s as [|c s IH]; intros r; simpl; auto.
  destruct (isspace c) eqn:Sp.
  - destruct (IH true) as [S1 S2]. destruct r; auto.
    split; [|discriminate]. cbn [single_spaced]. now rewrite S2, S1.
  - destruct (IH false) as [S1 _]. cbn [single_spaced starts_in].
    rewrite Sp, S1. auto.
Qed.

Lemma starts_in_lower : forall s, starts_in isspace (lower s) = starts_in isspace s.
Proof. intros [|c s]; simpl; auto. apply lower_char_isspace. Qed.

Lemma single_spaced_lower : forall s, single_spaced (lower s) = single_spaced s.
Proof.
  induction s as [|c s IH]; simpl; auto.
  change (map lower_char s) with (lower s).
  now rewrite lower_char_isspace, starts_in_lower, IH.
Qed.

Lemma single_spaced_app : forall u v,
  single_spaced (u ++ v) = true -> single_spaced u = true /\ single_spaced v = true.
Proof.
  induction u as [|c u IH]; intros v H; simpl in *; auto.
  apply andb_prop in H. destruct H as [H1 H2].
  destruct (IH v H2) as [Hu Hv]. split; auto. rewrite Hu, andb_true_r.
  destruct (isspace c); auto. destruct u; auto.
Qed.

Lemma single_spaced_strip : forall p s,
  single_spaced s = true -> single_spaced (strip_by p s) = true.
Proof.
  intros p s H. unfold strip_by.
  destruct (lstrip_by_suffix p s) as [u E]. rewrite E in H.
  apply single_spaced_app in H. destruct H as [_ H].
  destruct (rstrip_by_prefix p (lstrip_by p s)) as [w E2]. rewrite E2 in H.
  now apply single_spaced_app in H.
Qed.

(** The four marks of a normal form. *)
Definition normal (t : str) : Prop :=
  forallb ok_char t = true /\ single_spaced t = true
  /\ starts_in isspace t = false /\ ends_in isspace t = false.

Lemma clean_text_normal : forall s, normal (clean_text_for_comparison s).
Proof.
  intros s. rewrite clean_text_normal_form. unfold normalize_replacing, strip.
  repeat split.
  - apply forallb_strip_by, collapse_chars.
    unfold blank_others. rewrite forallb_forall. intros c Hc.
    apply in_map_iff in Hc. destruct Hc as (x & <- & _). apply blank_kept.
  - apply single_spaced_strip. rewrite single_spaced_lower. apply collapse_single.
  - apply strip_by_edges.
  - apply strip_by_edges.
Qed.

Lemma blank_others_id : forall t, forallb ok_char t = true -> blank_others t = t.
Proof.
  induction t as [|c t IH]; simpl; auto.
  intros H. apply andb_prop in H. destruct H as [Hc Ht].
  rewrite (ok_char_kept _ Hc). f_equal. auto.
Qed.

Lemma lower_id : forall t, forallb ok_char t = true -> lower t = t.
Proof.
  induction t as [|c t IH]; simpl; auto.
  intros H. apply andb_prop in H. destruct H as [Hc Ht].
  rewrite (ok_char_lower _ Hc). f_equal. auto.
Qed.

Lemma collapse_spaces_id : forall t r,
  forallb ok_char t = true -> single_spaced t = true ->
  (r = true -> starts_in isspace t = false) ->
  collapse_spaces r t = t.
Proof.
  induction t as [|c t IH]; intros r Hok Hs Hr; simpl; auto.
  simpl in Hok, Hs. apply andb_prop in Hok. destruct Hok as [Hc Ht].
  apply andb_prop in Hs. destruct Hs as [Ha Hs].
  destruct (isspace c) eqn:Sp.
  - destruct r; [specialize (Hr eq_refl); simpl in Hr; congruence|].
    rewrite (ok_char_space _ Hc Sp). f_equal. apply IH; auto.
    intros _. cbn [andb] in Ha. now apply negb_true_iff in Ha.
  - f_equal. apply IH; auto. discriminate.
Qed.

(** A normal form is left as it is. *)
Lemma clean_text_fixed : forall t, normal t -> clean_text_for_comparison t = t.
Proof.
  intros t (Hok & Hs & H1 & H2). rewrite clean_text_normal_form.
  unfold normalize_replacing, strip.
  rewrite blank_others_id by assumption.
  rewrite collapse_spaces_id by (auto; discriminate).
  rewrite lower_id by assumption. now apply strip_by_id.
Qed.

(** A character that is neither a word character nor a hyphen. *)
Definition filler (c : ascii) : bool := negb (isword c || Ascii.eqb c "-").

Lemma blank_filler : forall c,
  filler c = true -> isspace (if kept c then c else " "%char) = true.
Proof.
  intros c H. unfold filler in H. apply negb_true_iff in H.
  unfold kept. destruct (isword c); [discriminate|].
  destruct (isspace c) eqn:Sp; simpl.
  - exact Sp.
  - simpl in H. rewrite H. reflexivity.
Qed.

Lemma collapse_all_space : forall s r,
  forallb isspace s = true -> forallb isspace (lower (collapse_spaces r s)) = true.
Proof.
  induction s as [|c s IH]; intros r H; simpl; auto.
  simpl in H. apply andb_prop in H. destruct H as [Hc Hs]. rewrite Hc.
  destruct r; simpl; auto.
Qed.

Lemma clean_text_filler : forall s,
  forallb filler s = true -> clean_text_for_comparison s = [].
Proof.
  intros s H. rewrite clean_text_normal_form. unfold normalize_replacing, strip.
  apply strip_by_all, collapse_all_space.
  unfold blank_others. rewrite forallb_forall in *. intros c Hc.
  apply in_map_iff in Hc. destruct Hc as (x & <- & Hx). apply blank_filler. auto.
Qed.

End Normal.

(** X6: the normal form holds only lower-case word characters, hyphens
    and spaces, has no two whitespace characters in a row, and neither
    starts nor ends with whitespace. *)
Theorem clean_text_shape : forall s : str,
  forallb Normal.ok_char (clean_text_for_comparison s) = true
  /\ Normal.single_spaced (clean_text_for_comparison s) = true
  /\ StripFacts.starts_in Str.isspace (clean_text_for_comparison s) = false
  /\ StripFacts.ends_in Str.isspace (clean_text_for_comparison s) = false.
Proof. intros s. apply Normal.clean_text_normal. Qed.

(** X7: on strings of code points below 256, normalizing twice is
    normalizing once.  (Further up [lower] can bring in a character that
    a second pass blanks, as for U+0130.) *)
Theorem clean_text_idempotent : forall s : str,
  clean_text_for_comparison (clean_text_for_comparison s)
  = clean_text_for_comparison s.
Proof. intros s. apply Normal.clean_text_fixed, Normal.clean_text_normal. Qed.

(** X8: a text without a word character or a hyphen (empty, blank, or
    punctuation only) has the empty normal form. *)
Theorem clean_text_of_punctuation_is_empty : forall s : str,
  forallb Normal.filler s = true -> clean_text_for_comparison s = [].
Proof. intros s H. now apply Normal.clean_text_filler. Qed.

Lemma clean_text_of_punctuation_is_empty_witness :
  clean_text_for_comparison " ?!... (:) " = [].
Proof.
  apply (@clean_text_of_punctuation_is_empty " ?!... (:) ").
  vm_compute. reflexivity.
Defined.

(** ** More on the resolver *)

Module ResolverMore.
Import Py ResolverFacts.

(** What the loop returns is the empty string or what some candidate made
    it return. *)
Lemma for_results_inv : forall input year l v,
  for_results input year l = Ok v ->
  v = JStr "" \/ exists c, In c l /\ examine input year c = Ok (Return v).
Proof.
  induction l as [|x l IH]; intros v H; cbn [for_results] in H.
  - left. congruence.
  - destruct (examine input year x) as [[|w]|e] eqn:E; cbn [bind] in H.
    + apply IH in H. destruct H as [H|(c & Hc & Ec)]; auto.
      right. exists c. split; auto. now right.
    + inversion H; subst w. right. exists x. split; auto. now left.
    + discriminate.
Qed.

Lemma for_results_none : forall input year l,
  (forall x, In x l -> examine input year x = Ok Continue) ->
  for_results input year l = Ok (JStr "").
Proof.
  induction l as [|x l IH]; intros H; cbn [for_results]; auto.
  rewrite (H x) by now left. cbn [bind]. apply IH.
  intros y Hy. apply H. now right.
Qed.

Lemma for_results_raise : forall input year pre bad post e,
  (forall x, In x pre -> examine input year x = Ok Continue) ->
  examine input year bad = Raise e ->
  for_results input year (pre ++ bad :: post) = Raise e.
Proof.
  induction pre as [|x pre IH]; intros bad post e Hpre Hbad; cbn [app for_results].
  - now rewrite Hbad.
  - rewrite (Hpre x) by now left. cbn [bind]. apply IH; auto.
    intros y Hy. apply Hpre. now right.
Qed.

Lemma iterate_truthy : forall items cands,
  iterate items = Ok cands -> truthy items = match cands with [] => false | _ => true end.
Proof.
  intros [|b|z|r|s|l|kv] cands H; try discriminate; inversion H; subst; simpl.
  - now destruct s.
  - reflexivity.
  - now destruct kv.
Qed.

(** A 200 response with candidates goes to the loop over them. *)
Lemma search_body_candidates :
  forall requests_get title year results message items cands,
    requests_get base_url (search_params (clean_title_of title))
    = Response 200 (Some results) ->
    getitem results "message" = Ok message ->
    getitem message "items" = Ok items ->
    iterate items = Ok cands ->
    search_body requests_get (clean_title_of title) year
    = for_results (clean_text_for_comparison (clean_title_of title)) year cands.
Proof.
  intros requests_get title year results message items cands Hget Hm Hi Hc.
  unfold search_body. rewrite Hget. cbn [Z.eqb Pos.eqb response_json bind].
  rewrite Hm. cbn [bind]. rewrite Hi. cbn [bind].
  rewrite (iterate_truthy _ Hc), Hc. cbn [bind].
  now destruct cands.
Qed.

Lemma pub_year_default : forall fields,
  lookup "date-parts" fields = None -> pub_year_of (JObj fields) = Ok [].
Proof. intros fields H. unfold pub_year_of. cbn [get]. now rewrite H. Qed.

Lemma filler_clean_title : forall title,
  forallb Normal.filler title = true ->
  clean_text_for_comparison (clean_title_of title) = [].
Proof.
  intros title H. apply Normal.clean_text_filler.
  unfold clean_title_of, Str.replace_char, Str.strip.
  apply StripFacts.forallb_strip_by with (p := Str.isspace) in H.
  rewrite forallb_forall in *. intros c Hc.
  apply in_map_iff in Hc. destruct Hc as (x & <- & Hx).
  destruct (Ascii.eqb x newline); [reflexivity | now apply H].
Qed.

End ResolverMore.

Import ResolverMore.

(** X9: whatever the registry answers, the resolver returns the empty
    string or the identifier of a candidate of the response whose title
    similarity is above 0.85, and then without a warning. *)
Theorem resolver_answer_is_empty_or_accepted :
  forall (requests_get : str -> params -> reply) (title authors year : str),
    fst (search_crossref_doi requests_get title authors year) = JStr ""
    \/ exists results message items cands c t,
         requests_get base_url (search_params (clean_title_of title))
         = Response 200 (Some results)
         /\ getitem results "message" = Ok message
         /\ getitem message "items" = Ok items
         /\ iterate items = Ok cands
         /\ In c cands
         /\ title_text c = Some t
         /\ (0.85 < similarity_to
                      (clean_text_for_comparison (clean_title_of title)) t)%Q
         /\ search_crossref_doi requests_get title authors year
            = (identifier c, []).
Proof.
  intros requests_get title authors year. rewrite search_caught.
  destruct (search_body requests_get (clean_title_of title) year) as [v|e] eqn:B;
    [|now left].
  unfold search_body in B.
  destruct (requests_get base_url (search_params (clean_title_of title)))
    as [e|status [results|]] eqn:G; try discriminate.
  - destruct (Z.eqb_spec status 200) as [->|]; [|inversion B; now left].
    cbn [response_json bind] in B.
    destruct (getitem results "message") as [message|] eqn:M; [|discriminate].
    cbn [bind] in B.
    destruct (getitem message "items") as [items|] eqn:I; [|discriminate].
    cbn [bind] in B.
    destruct (truthy items); cbn [negb] in B; [|inversion B; now left].
    destruct (iterate items) as [cands|] eqn:C; [|discriminate].
    cbn [bind] in B. apply for_results_inv in B.
    destruct B as [->|(c & Hc & Ec)]; [now left|].
    destruct (examine_return _ _ _ Ec) as (-> & t & T & A).
    right. exists results, message, items, cands, c, t.
    repeat split; auto. now apply above_threshold_iff.
  - destruct (status =? 200)%Z; [discriminate | inversion B; now left].
Qed.

(** X10: when the loop skips every candidate of the response (none has a
    title above the threshold that passes the year check), the resolver
    returns the empty string without a warning. *)
Theorem no_candidate_accepted_gives_empty :
  forall (requests_get : str -> params -> reply) (title authors year : str)
         (results message items : json) (cands : list json),
    requests_get base_url (search_params (clean_title_of title))
    = Response 200 (Some results) ->
    getitem results "message" = Ok message ->
    getitem message "items" = Ok items ->
    iterate items = Ok cands ->
    (forall x, In x cands ->
       examine (clean_text_for_comparison (clean_title_of title)) year x
       = Ok Continue) ->
    search_crossref_doi requests_get title authors year = (JStr "", []).
Proof.
  intros requests_get title authors year results message items cands
         Hget Hm Hi Hc Hall.
  rewrite search_caught.
  rewrite (search_body_candidates requests_get title year Hget Hm Hi Hc).
  now rewrite for_results_none.
Qed.

Lemma no_candidate_accepted_gives_empty_witness :
  search_crossref_doi Examples.registry "Quantum Gravity" "" "" = (JStr "", []).
Proof.
  refine (@no_candidate_accepted_gives_empty
            Examples.registry "Quantum Gravity" "" ""
            (Examples.body_of (JArr [Examples.far_item; Examples.close_item]))
            (JObj [(lit "items", JArr [Examples.far_item; Examples.close_item])])
            (JArr [Examples.far_item; Examples.close_item])
            [Examples.far_item; Examples.close_item]
            eq_refl eq_refl eq_refl eq_refl _).
  intros x [<-|[<-|[]]]; vm_compute; reflexivity.
Defined.

(** X11: a candidate on which the loop body raises ends the search: when
    every candidate before it is skipped, the resolver returns the empty
    string with a warning, whatever candidates follow. *)
Theorem raising_candidate_ends_the_search :
  forall (requests_get : str -> params -> reply) (title authors year : str)
         (results message items : json) (pre post : list json) (bad : json)
         (e : exn),
    requests_get base_url (search_params (clean_title_of title))
    = Response 200 (Some results) ->
    getitem results "message" = Ok message ->
    getitem message "items" = Ok items ->
    iterate items = Ok (pre ++ bad :: post) ->
    (forall x, In x pre ->
       examine (clean_text_for_comparison (clean_title_of title)) year x
       = Ok Continue) ->
    examine (clean_text_for_comparison (clean_title_of title)) year bad = Raise e ->
    search_crossref_doi requests_get title authors year
    = (JStr "", [ErrorSearchingDOI e]).
Proof.
  intros requests_get title authors year results message items pre post bad e
         Hget Hm Hi Hc Hpre Hbad.
  rewrite search_caught.
  rewrite (search_body_candidates requests_get title year Hget Hm Hi Hc).
  erewrite for_results_raise; eauto.
Qed.

(** X12: without a year hint the print-publication date is not looked at:
    a candidate with a title is judged on its similarity alone. *)
Theorem no_year_hint_no_year_check :
  forall (input : str) (kv : list (str * json)) (t : str),
    title_text (JObj kv) = Some t ->
    examine input [] (JObj kv)
    = if above_threshold (similarity_to input t)
      then Ok (Return (identifier (JObj kv)))
      else Ok Continue.
Proof.
  intros input kv t T. now rewrite (examine_titled input [] _ T).
Qed.

(** X13: a candidate above the threshold whose print-publication year
    equals the hint is accepted. *)
Theorem matching_year_is_accepted :
  forall (input year : str) (kv : list (str * json)) (t : str) (published : json),
    title_text (JObj kv) = Some t ->
    (0.85 < similarity_to input t)%Q ->
    lookup "published-print" kv = Some published ->
    pub_year_of published = Ok year ->
    examine input year (JObj kv) = Ok (Return (identifier (JObj kv))).
Proof.
  intros input year kv t published T A Hp Hy.
  rewrite (examine_titled input year _ T).
  apply above_threshold_iff in A. rewrite A. unfold year_check.
  destruct (Str.truthy year); auto.
  rewrite Hp, Hy. cbn [bind].
  now rewrite (proj2 (StrFacts.eqb_eq year year) eq_refl).
Qed.

(** X14: a candidate whose print-publication date has no [date-parts] has
    the empty year, and is skipped under every non-empty year hint. *)
Theorem print_date_without_parts_is_rejected :
  forall (input year : str) (kv fields : list (str * json)) (t : str),
    title_text (JObj kv) = Some t ->
    year <> [] ->
    lookup "published-print" kv = Some (JObj fields) ->
    lookup "date-parts" fields = None ->
    examine input year (JObj kv) = Ok Continue.
Proof.
  intros input year kv fields t T Hyear Hp Hd.
  rewrite (examine_titled input year _ T).
  destruct (above_threshold (similarity_to input t)); auto.
  unfold year_check. destruct year as [|c year]; [congruence|].
  cbn [Str.truthy]. rewrite Hp, (pub_year_default _ Hd). reflexivity.
Qed.

(** X15: titles without a word character or a hyphen all have the empty
    normal form, so such a candidate title matches such an input title. *)
Theorem punctuation_titles_match_each_other :
  forall (title t : str) (kv : list (str * json)),
    forallb Normal.filler title = true ->
    forallb Normal.filler t = true ->
    title_text (JObj kv) = Some t ->
    examine (clean_text_for_comparison (clean_title_of title)) [] (JObj kv)
    = Ok (Return (identifier (JObj kv))).
Proof.
  intros title t kv Htitle Ht T.
  rewrite (examine_titled _ [] _ T). unfold similarity_to.
  rewrite (filler_clean_title _ Htitle), (Normal.clean_text_filler _ Ht).
  reflexivity.
Qed.

(** X16: a DOI is read back from its URL: when [create_doi_url d] is not
    empty, it starts with "https://doi.org/10." and [d] is what follows
    its first 16 characters. *)
Theorem doi_is_read_back_from_its_url : forall d : str,
  create_doi_url d <> [] ->
  skipn 16 (create_doi_url d) = d
  /\ Str.startswith "https://doi.org/10." (create_doi_url d) = true.
Proof.
  intros d H. unfold create_doi_url in *.
  destruct (Str.truthy d && Str.startswith "10." d) eqn:E;
    [|exfalso; apply H; reflexivity].
  apply andb_prop in E. destruct E as [_ E].
  apply StrFacts.startswith_iff in E. destruct E as [rest ->].
  split; reflexivity.
Qed.

Module MoreExamples.

(** A candidate whose title is a list that holds a number. *)
Definition odd_item : json := JObj [(lit "title", JArr [JInt 5])].

Definition odd_registry (_ : str) (_ : params) : reply :=
  Response 200 (Some (Examples.body_of (JArr [odd_item; Examples.close_item]))).

(** A candidate with a print-publication date without [date-parts]. *)
Definition undated_fields : list (str * json) :=
  [(lit "title", JArr [JStr "A Study of Graphs"]);
   (lit "published-print", JObj [])].

(** A candidate whose title is punctuation only. *)
Definition marks_fields : list (str * json) :=
  [(lit "title", JArr [JStr "!!!"]); (lit "DOI", JStr "10.9/z")].

End MoreExamples.

Lemma raising_candidate_ends_the_search_witness :
  search_crossref_doi MoreExamples.odd_registry "A study of graphs" "" ""
  = (JStr "", [ErrorSearchingDOI TypeError]).
Proof.
  refine (@raising_candidate_ends_the_search
            MoreExamples.odd_registry "A study of graphs" "" ""
            (Examples.body_of (JArr [MoreExamples.odd_item; Examples.close_item]))
            (JObj [(lit "items", JArr [MoreExamples.odd_item; Examples.close_item])])
            (JArr [MoreExamples.odd_item; Examples.close_item])
            [] [Examples.close_item] MoreExamples.odd_item TypeError
            eq_refl eq_refl eq_refl eq_refl _ eq_refl).
  intros x [].
Defined.

Lemma no_year_hint_no_year_check_witness :
  examine "a study of graphs" [] (JObj MoreExamples.undated_fields)
  = if above_threshold (similarity_to "a study of graphs" "A Study of Graphs")
    then Ok (Return (identifier (JObj MoreExamples.undated_fields)))
    else Ok Continue.
Proof.
  exact (@no_year_hint_no_year_check
           "a study of graphs" MoreExamples.undated_fields "A Study of Graphs"
           eq_refl).
Defined.

Lemma matching_year_is_accepted_witness :
  examine "a study of graphs" "2020" (JObj Examples.close_fields)
  = Ok (Return (identifier (JObj Examples.close_fields))).
Proof.
  refine (@matching_year_is_accepted
            "a study of graphs" "2020" Examples.close_fields
            "A Study of Graphs!" Examples.print_2020 eq_refl _ eq_refl eq_refl).
  vm_compute. reflexivity.
Defined.

Lemma print_date_without_parts_is_rejected_witness :
  examine "a study of graphs" "2020" (JObj MoreExamples.undated_fields)
  = Ok Continue.
Proof.
  refine (@print_date_without_parts_is_rejected
            "a study of graphs" "2020" MoreExamples.undated_fields []
            "A Study of Graphs" eq_refl _ eq_refl eq_refl).
  discriminate.
Defined.

Lemma punctuation_titles_match_each_other_witness :
  examine (clean_text_for_comparison (clean_title_of "???")) []
          (JObj MoreExamples.marks_fields)
  = Ok (Return (identifier (JObj MoreExamples.marks_fields))).
Proof.
  exact (@punctuation_titles_match_each_other
           "???" "!!!" MoreExamples.marks_fields eq_refl eq_refl eq_refl).
Defined.

Lemma doi_is_read_back_from_its_url_witness :
  skipn 16 (create_doi_url "10.1000/xyz") = lit "10.1000/xyz"
  /\ Str.startswith "https://doi.org/10." (create_doi_url "10.1000/xyz") = true.
Proof.
  apply (@doi_is_read_back_from_its_url "10.1000/xyz"). discriminate.
Defined.

(** ** The batch pass, [process_dois]

    The frame is the one built from the records of [extract_publications]:
    its rows in order, indexed from 0.  What the pass shows and does on
    the way is kept as a trace. *)

Inductive event : Type :=
| Progress (done total : nat)      (* progress_bar.progress((idx + 1) / total) *)
| Warned (w : warning)             (* the warning of a failed lookup *)
| FoundDOIs (found_count : nat)    (* st.sidebar.write(f"Found DOIs: {found_count}") *)
| Sleep (seconds : nat).           (* sleep(1) *)

(** [doi and doi.startswith('10.')], as a condition: only a string has
    [startswith]. *)
Definition found_test (doi : json) : Py.result bool :=
  if truthy doi then
    match doi with
    | JStr s => Ok (Str.startswith "10." s)
    | _ => Raise AttributeError
    end
  else Ok false.

(** [create_doi_url] applied to a value of the DOI column. *)
Definition create_doi_url_of (doi : json) : Py.result str :=
  if truthy doi then
    match doi with
    | JStr s => Ok (create_doi_url s)
    | _ => Raise AttributeError
    end
  else Ok [].

Section Batch.

Variable requests_get : str -> params -> reply.

(** Whether a progress bar was passed. *)
Variable progress_bar : bool.

Definition lookup_row (row : publication) : json * list warning :=
  search_crossref_doi requests_get (Title row) (Authors row) (Year row).

(** The loop [for idx, row in df.iterrows()], from row [idx] on. *)
Fixpoint process_rows (total idx : nat) (rows : list publication)
  (dois : list json) (found_count : nat) (trace : list event)
  : Py.result (list json) * list event :=
  match rows with
  | [] => (Ok dois, trace)
  | row :: rest =>
      let trace := if progress_bar then trace ++ [Progress (idx + 1) total] else trace in
      let '(doi, warnings) := lookup_row row in
      let trace := trace ++ map Warned warnings in
      match found_test doi with
      | Raise e => (Raise e, trace)
      | Ok found =>
          let found_count := if found then found_count + 1 else found_count in
          let trace := if found then trace ++ [FoundDOIs found_count] else trace in
          process_rows total (S idx) rest (dois ++ [doi]) found_count
                       (trace ++ [Sleep 1])
      end
  end.

Definition process_dois (df : list publication) : Py.result (list json) * list event :=
  process_rows (length df) 0 df [] 0 [].

End Batch.

Module BatchFacts.
Import Py.

(** A value the tests on a DOI accept: a string, or a value that counts
    as false. *)
Definition plain (v : json) : bool :=
  match v with
  | JStr _ => true
  | _ => negb (truthy v)
  end.

(** A non-empty string that begins with "10.". *)
Definition valid_doi (v : json) : bool :=
  match v with
  | JStr s => Str.truthy s && Str.startswith "10." s
  | _ => false
  end.

(** The seconds slept, the counters written to the sidebar and the
    progress shown, as a trace tells them. *)
Definition slept (trace : list event) : nat :=
  list_sum (flat_map (fun e => match e with Sleep n => [n] | _ => [] end) trace).

Definition found_counts (trace : list event) : list nat :=
  flat_map (fun e => match e with FoundDOIs n => [n] | _ => [] end) trace.

Definition progress_shown (trace : list event) : list (nat * nat) :=
  flat_map (fun e => match e with Progress i n => [(i, n)] | _ => [] end) trace.

Definition warnings_shown (trace : list event) : list warning :=
  flat_map (fun e => match e with Warned w => [w] | _ => [] end) trace.

(** Whether [create_doi_url] gives a value its URL. *)
Definition has_url (v : json) : bool :=
  match create_doi_url_of v with
  | Ok u => Str.truthy u
  | Raise _ => false
  end.

Lemma found_test_plain : forall v,
  plain v = true -> found_test v = Ok (valid_doi v).
Proof.
  intros v H. unfold found_test.
  destruct v as [|b|z|r|s|l|kv]; cbn [plain truthy] in *;
    try (apply negb_true_iff in H; rewrite H; reflexivity).
  - reflexivity.
  - now destruct s.
Qed.

Lemma found_test_not_plain : forall v,
  plain v = false -> found_test v = Raise AttributeError.
Proof.
  intros v H. unfold found_test.
  destruct v as [|b|z|r|s|l|kv]; cbn [plain truthy] in *; try discriminate;
    apply negb_false_iff in H; rewrite H; reflexivity.
Qed.

Lemma create_doi_url_of_plain : forall v,
  plain v = true ->
  exists u, create_doi_url_of v = Ok u /\ Str.truthy u = valid_doi v.
Proof.
  intros v H. unfold create_doi_url_of.
  destruct v as [|b|z|r|s|l|kv]; cbn [plain truthy valid_doi] in *;
    try (apply negb_true_iff in H; rewrite H; exists []; split; reflexivity).
  - exists []. split; reflexivity.
  - destruct s as [|c s]; cbn [Str.truthy].
    + exists []. split; reflexivity.
    + eexists. split; [reflexivity|]. unfold create_doi_url. cbn [Str.truthy andb].
      now destruct (Str.startswith "10." (c :: s)).
Qed.

Lemma slept_app : forall a b, slept (a ++ b) = slept a + slept b.
Proof. intros a b. unfold slept. now rewrite flat_map_app, list_sum_app. Qed.

Lemma found_counts_app : forall a b,
  found_counts (a ++ b) = found_counts a ++ found_counts b.
Proof. intros a b. unfold found_counts. apply flat_map_app. Qed.

Lemma progress_shown_app : forall a b,
  progress_shown (a ++ b) = progress_shown a ++ progress_shown b.
Proof. intros a b. unfold progress_shown. apply flat_map_app. Qed.

Lemma warnings_shown_app : forall a b,
  warnings_shown (a ++ b) = warnings_shown a ++ warnings_shown b.
Proof. intros a b. unfold warnings_shown. apply flat_map_app. Qed.

Lemma warned_silent : forall ws,
  slept (map Warned ws) = 0 /\ found_counts (map Warned ws) = []
  /\ progress_shown (map Warned ws) = [].
Proof. induction ws as [|w ws IH]; simpl; auto. Qed.

Lemma warned_shown : forall ws, warnings_shown (map Warned ws) = ws.
Proof.
  induction ws as [|w ws IH]; [reflexivity|].
  cbn [map]. change (warnings_shown (Warned w :: map Warned ws))
    with (w :: warnings_shown (map Warned ws)). now rewrite IH.
Qed.

Lemma has_url_plain : forall v, plain v = true -> has_url v = valid_doi v.
Proof.
  intros v H. unfold has_url.
  destruct (create_doi_url_of_plain v H) as (u & -> & Hu). exact Hu.
Qed.

Section Pass.

Variable requests_get : str -> params -> reply.
Variable progress_bar : bool.

Definition doi_of (row : publication) : json :=
  fst (lookup_row requests_get row).

(** The pass over rows whose lookups all give plain values. *)
Lemma process_rows_plain : forall rest total idx dois found trace,
  forallb (fun row => plain (doi_of row)) rest = true ->
  let out := process_rows requests_get progress_bar total idx rest dois found trace in
  fst out = Ok (dois ++ map doi_of rest)
  /\ slept (snd out) = slept trace + length rest
  /\ found_counts (snd out)
     = found_counts trace
       ++ seq (S found) (length (filter (fun row => valid_doi (doi_of row)) rest))
  /\ progress_shown (snd out)
     = progress_shown trace
       ++ (if progress_bar
           then map (fun i => (i, total)) (seq (S idx) (length rest))
           else [])
  /\ warnings_shown (snd out)
     = warnings_shown trace
       ++ flat_map (fun row => snd (lookup_row requests_get row)) rest.
Proof.
  induction rest as [|row rest IH]; intros total idx dois found trace H; cbn zeta.
  - cbn [process_rows fst snd map length filter seq flat_map]. rewrite !app_nil_r.
    split; [reflexivity|]. split; [lia|]. split; [reflexivity|].
    split; [|reflexivity].
    destruct progress_bar; now rewrite app_nil_r.
  - cbn [forallb] in H. apply andb_prop in H. destruct H as [Hrow Hrows].
    cbn [process_rows flat_map]. unfold doi_of in Hrow |- *.
    destruct (lookup_row requests_get row) as [doi ws] eqn:L. cbn [fst snd] in Hrow |- *.
    rewrite (found_test_plain _ Hrow).
    destruct (warned_silent ws) as (W1 & W2 & W3).
    pose proof (warned_shown ws) as W4.
    fold doi_of.
    match goal with
    | |- context [process_rows _ _ total (S idx) rest ?d ?f ?t] =>
        destruct (IH total (S idx) d f t Hrows) as (R1 & R2 & R3 & R4 & R5)
    end.
    rewrite R1, R2, R3, R4, R5. clear R1 R2 R3 R4 R5 IH.
    cbn [map length filter]. unfold doi_of at 1 2. rewrite L. cbn [fst].
    split; [now rewrite <- app_assoc|].
    split; [|split; [|split]].
    + destruct progress_bar, (valid_doi doi);
        repeat rewrite slept_app; rewrite ?W1; unfold slept; simpl; lia.
    + destruct progress_bar, (valid_doi doi);
        repeat rewrite found_counts_app; rewrite ?W2; unfold found_counts; simpl;
        rewrite ?app_nil_r, <- ?app_assoc; simpl; rewrite ?Nat.add_1_r; reflexivity.
    + destruct progress_bar, (valid_doi doi);
        repeat rewrite progress_shown_app; rewrite ?W3; unfold progress_shown; simpl;
        rewrite ?app_nil_r, <- ?app_assoc; simpl; rewrite ?Nat.add_1_r; reflexivity.
    + destruct progress_bar, (valid_doi doi);
        repeat rewrite warnings_shown_app; rewrite ?W4; unfold warnings_shown; simpl;
        rewrite ?app_nil_r, <- ?app_assoc; reflexivity.
Qed.

(** The pass stops at the first row whose lookup gives a value that is
    neither a string nor false; no sleep follows that row. *)
Lemma process_rows_stops : forall pre total idx dois found trace row post,
  forallb (fun row => plain (doi_of row)) pre = true ->
  plain (doi_of row) = false ->
  let out := process_rows requests_get progress_bar total idx (pre ++ row :: post)
                          dois found trace in
  fst out = Raise AttributeError /\ slept (snd out) = slept trace + length pre.
Proof.
  induction pre as [|r pre IH]; intros total idx dois found trace row post Hpre Hrow;
    cbn zeta.
  - cbn [app process_rows]. unfold doi_of in Hrow.
    destruct (lookup_row requests_get row) as [doi ws]. cbn [fst] in Hrow.
    rewrite (found_test_not_plain _ Hrow). cbn [fst snd length].
    split; [reflexivity|].
    destruct (warned_silent ws) as (W1 & _).
    destruct progress_bar; repeat rewrite slept_app; rewrite W1; unfold slept; simpl; lia.
  - cbn [forallb] in Hpre. apply andb_prop in Hpre. destruct Hpre as [Hr Hpre].
    cbn [app process_rows]. unfold doi_of in Hr.
    destruct (lookup_row requests_get r) as [doi ws]. cbn [fst] in Hr.
    rewrite (found_test_plain _ Hr).
    destruct (warned_silent ws) as (W1 & _).
    match goal with
    | |- context [process_rows _ _ total (S idx) _ ?d ?f ?t] =>
        destruct (IH total (S idx) d f t row post Hpre Hrow) as (R1 & R2)
    end.
    rewrite R1, R2. split; [reflexivity|]. cbn [length].
    destruct progress_bar, (valid_doi doi);
      repeat rewrite slept_app; rewrite W1; unfold slept; simpl; lia.
Qed.

(** Among plain values, those with a URL are the valid DOIs. *)
Lemma count_with_url : forall df,
  forallb (fun row => plain (doi_of row)) df = true ->
  length (filter (fun row => valid_doi (doi_of row)) df)
  = length (filter has_url (map doi_of df)).
Proof.
  induction df as [|row df IH]; intros H; [reflexivity|].
  cbn [forallb] in H. apply andb_prop in H. destruct H as [Hrow Hdf].
  cbn [map filter]. rewrite (has_url_plain _ Hrow).
  destruct (valid_doi (doi_of row)); cbn [length]; now rewrite IH.
Qed.

(** A value that counts as true and is no string is not plain. *)
Lemma not_plain : forall v,
  truthy v = true -> (forall s, v <> JStr s) -> plain v = false.
Proof.
  intros v T N. destruct v as [|b|z|r|s|l|kv]; cbn [plain]; rewrite ?T; try reflexivity.
  exfalso. now apply (N s).
Qed.

(** An unreachable registry: every lookup gives the empty string and a
    warning. *)
Lemma lookup_row_failed : forall e row,
  (forall url p, requests_get url p = Failed e) ->
  lookup_row requests_get row = (JStr "", [ErrorSearchingDOI e]).
Proof.
  intros e row H. unfold lookup_row. rewrite ResolverFacts.search_caught.
  unfold search_body. now rewrite H.
Qed.

Lemma failed_rows : forall e df,
  (forall url p, requests_get url p = Failed e) ->
  forallb (fun row => plain (doi_of row)) df = true
  /\ map doi_of df = repeat (JStr "") (length df)
  /\ flat_map (fun row => snd (lookup_row requests_get row)) df
     = repeat (ErrorSearchingDOI e) (length df)
  /\ filter (fun row => valid_doi (doi_of row)) df = [].
Proof.
  intros e df H. induction df as [|row df (I1 & I2 & I3 & I4)].
  - repeat split.
  - assert (D : doi_of row = JStr "")
      by (unfold doi_of; now rewrite (lookup_row_failed row H)).
    cbn [forallb map flat_map filter length repeat].
    rewrite D, (lookup_row_failed row H), I1, I2, I3, I4. repeat split.
Qed.

End Pass.

End BatchFacts.

Module BatchExamples.

(** A registry whose candidate carries a number where the DOI should be. *)
Definition numbered_fields : list (str * json) :=
  [(lit "title", JArr [JStr "A Study of Graphs"]); (lit "DOI", JInt 12345)].

Definition numbered_registry (_ : str) (_ : params) : reply :=
  Response 200 (Some (Examples.body_of (JArr [JObj numbered_fields]))).

(** The frame of a text of two entries. *)
Definition two_rows : list publication :=
  extract_publications (scenario ++ lit " " ++ Examples.second_entry).

(** Two rows of a frame. *)
Definition trees_row : publication :=
  Publication "2021" "Doe, A" "On Trees" "Proc. of X, 12-19".

Definition graphs_row : publication :=
  Publication "2020" "Smith, J" "A Study of Graphs" " Journal of Math".

End BatchExamples.

(** X17: when every lookup gives a string or a value that counts as
    false, the batch pass returns the values of the lookups, one per row
    and in the order of the rows, sleeps one second per row, and with a
    progress bar shows 1 of n, 2 of n, ..., n of n. *)
Theorem batch_returns_one_value_per_row :
  forall (requests_get : str -> params -> reply) (progress_bar : bool)
         (df : list publication),
    forallb (fun row => BatchFacts.plain (BatchFacts.doi_of requests_get row)) df
    = true ->
    fst (process_dois requests_get progress_bar df)
    = Ok (map (BatchFacts.doi_of requests_get) df)
    /\ BatchFacts.slept (snd (process_dois requests_get progress_bar df))
       = length df
    /\ BatchFacts.progress_shown (snd (process_dois requests_get progress_bar df))
       = if progress_bar
         then map (fun i => (i, length df)) (seq 1 (length df))
         else [].
Proof.
  intros requests_get progress_bar df H. unfold process_dois.
  destruct (BatchFacts.process_rows_plain requests_get progress_bar df
              (length df) 0 [] 0 [] H) as (R1 & R2 & _ & R4 & _).
  auto.
Qed.

Lemma batch_returns_one_value_per_row_witness :
  fst (process_dois Examples.registry true BatchExamples.two_rows)
  = Ok (map (BatchFacts.doi_of Examples.registry) BatchExamples.two_rows)
  /\ BatchFacts.slept (snd (process_dois Examples.registry true BatchExamples.two_rows))
     = length BatchExamples.two_rows
  /\ BatchFacts.progress_shown
       (snd (process_dois Examples.registry true BatchExamples.two_rows))
     = map (fun i => (i, length BatchExamples.two_rows))
           (seq 1 (length BatchExamples.two_rows)).
Proof.
  apply (@batch_returns_one_value_per_row
           Examples.registry true BatchExamples.two_rows).
  vm_compute. reflexivity.
Defined.

(** X18: under the same condition the counters written to the sidebar
    are 1, 2, ..., k in this order, where k is the number of returned
    values to which [create_doi_url] gives a URL. *)
Theorem sidebar_counts_the_rows_with_a_url :
  forall (requests_get : str -> params -> reply) (progress_bar : bool)
         (df : list publication),
    forallb (fun row => BatchFacts.plain (BatchFacts.doi_of requests_get row)) df
    = true ->
    BatchFacts.found_counts (snd (process_dois requests_get progress_bar df))
    = seq 1 (length (filter BatchFacts.has_url
                            (map (BatchFacts.doi_of requests_get) df))).
Proof.
  intros requests_get progress_bar df H. unfold process_dois.
  destruct (BatchFacts.process_rows_plain requests_get progress_bar df
              (length df) 0 [] 0 [] H) as (_ & _ & R3 & _).
  rewrite R3. cbn [BatchFacts.found_counts flat_map app].
  now rewrite (BatchFacts.count_with_url requests_get df H).
Qed.

Lemma sidebar_counts_the_rows_with_a_url_witness :
  BatchFacts.found_counts
    (snd (process_dois Examples.registry true BatchExamples.two_rows))
  = seq 1 (length (filter BatchFacts.has_url
                          (map (BatchFacts.doi_of Examples.registry)
                               BatchExamples.two_rows))).
Proof.
  apply (@sidebar_counts_the_rows_with_a_url
           Examples.registry true BatchExamples.two_rows).
  vm_compute. reflexivity.
Defined.

(** X19: a lookup that gives a value which counts as true and is no
    string (a number in the DOI field of the accepted candidate) makes the
    batch pass raise AttributeError: the values found for the rows before
    it are not returned, and no sleep follows that row. *)
Theorem non_string_doi_aborts_the_batch :
  forall (requests_get : str -> params -> reply) (progress_bar : bool)
         (pre post : list publication) (row : publication),
    forallb (fun row => BatchFacts.plain (BatchFacts.doi_of requests_get row)) pre
    = true ->
    truthy (BatchFacts.doi_of requests_get row) = true ->
    (forall s, BatchFacts.doi_of requests_get row <> JStr s) ->
    fst (process_dois requests_get progress_bar (pre ++ row :: post))
    = Raise AttributeError
    /\ BatchFacts.slept
         (snd (process_dois requests_get progress_bar (pre ++ row :: post)))
       = length pre.
Proof.
  intros requests_get progress_bar pre post row Hpre T N. unfold process_dois.
  apply (BatchFacts.process_rows_stops requests_get progress_bar pre
           (length (pre ++ row :: post)) 0 [] 0 [] row post Hpre).
  now apply BatchFacts.not_plain.
Qed.

Lemma non_string_doi_aborts_the_batch_witness :
  fst (process_dois BatchExamples.numbered_registry false
         ([BatchExamples.trees_row] ++ BatchExamples.graphs_row :: BatchExamples.two_rows))
  = Raise AttributeError
  /\ BatchFacts.slept
       (snd (process_dois BatchExamples.numbered_registry false
               ([BatchExamples.trees_row] ++ BatchExamples.graphs_row
                  :: BatchExamples.two_rows)))
     = length [BatchExamples.trees_row].
Proof.
  apply (@non_string_doi_aborts_the_batch
           BatchExamples.numbered_registry false [BatchExamples.trees_row]
           BatchExamples.two_rows BatchExamples.graphs_row).
  - vm_compute. reflexivity.
  - vm_compute. reflexivity.
  - intros s. vm_compute. discriminate.
Defined.

(** X20: when the registry cannot be reached (every request raises), the
    batch pass still ends: it returns the empty string for every row,
    shows one warning per row, writes no counter to the sidebar and sleeps
    one second per row. *)
Theorem unreachable_registry_gives_empty_dois :
  forall (requests_get : str -> params -> reply) (progress_bar : bool)
         (e : exn) (df : list publication),
    (forall url p, requests_get url p = Failed e) ->
    fst (process_dois requests_get progress_bar df)
    = Ok (repeat (JStr "") (length df))
    /\ BatchFacts.warnings_shown (snd (process_dois requests_get progress_bar df))
       = repeat (ErrorSearchingDOI e) (length df)
    /\ BatchFacts.found_counts (snd (process_dois requests_get progress_bar df)) = []
    /\ BatchFacts.slept (snd (process_dois requests_get progress_bar df))
       = length df.
Proof.
  intros requests_get progress_bar e df H. unfold process_dois.
  destruct (BatchFacts.failed_rows requests_get df H) as (F1 & F2 & F3 & F4).
  destruct (BatchFacts.process_rows_plain requests_get progress_bar df
              (length df) 0 [] 0 [] F1) as (R1 & R2 & R3 & _ & R5).
  rewrite R1, R2, R3, R5, F2, F3, F4. repeat split.
Qed.

Lemma unreachable_registry_gives_empty_dois_witness :
  fst (process_dois Examples.offline true BatchExamples.two_rows)
  = Ok (repeat (JStr "") (length BatchExamples.two_rows))
  /\ BatchFacts.warnings_shown
       (snd (process_dois Examples.offline true BatchExamples.two_rows))
     = repeat (ErrorSearchingDOI RequestException) (length BatchExamples.two_rows)
  /\ BatchFacts.found_counts
       (snd (process_dois Examples.offline true BatchExamples.two_rows)) = []
  /\ BatchFacts.slept (snd (process_dois Examples.offline true BatchExamples.two_rows))
     = length BatchExamples.two_rows.
Proof.
  apply (@unreachable_registry_gives_empty_dois
           Examples.offline true RequestException BatchExamples.two_rows).
  intros url p. reflexivity.
Defined.

(** ** The range of the similarity ratio

    A block found in [a[alo:ahi]] and [b[blo:bhi]] lies inside both
    ranges, and the ranges the [while queue] loop goes on with lie
    strictly beside it: the sizes of the blocks add up to at most the
    length of either sequence. *)

Module DifflibBounds.
Import Difflib DifflibFuel.

Definition total (l : list block) : nat :=
  fold_left (fun acc triple => acc + size triple) l 0.

Lemma fold_sizes : forall l n,
  fold_left (fun acc triple => acc + size triple) l n = n + total l.
Proof.
  unfold total. induction l as [|x l IH]; intros n; cbn [fold_left]; [lia|].
  rewrite IH, (IH (0 + size x)). lia.
Qed.

Lemma total_cons : forall x l, total (x :: l) = size x + total l.
Proof. intros x l. unfold total at 1. cbn [fold_left]. now rewrite fold_sizes. Qed.

Lemma total_app : forall l1 l2, total (l1 ++ l2) = total l1 + total l2.
Proof.
  induction l1 as [|x l1 IH]; intros l2; [reflexivity|].
  cbn [app]. rewrite !total_cons, IH. lia.
Qed.

(** The lengths kept for the indices of [b] from [blo] on. *)
Definition bounded_b (blo : nat) (d : j2len_t) : Prop :=
  forall j, j2len_get d j <= S j - blo.

Definition in_range_b (blo bhi : nat) (best : block) : Prop :=
  blo <= snd (fst best) /\ snd (fst best) + size best <= bhi.

Lemma bounded_b_pred : forall blo d j, bounded_b blo d -> j2len_get_pred d j <= j - blo.
Proof. intros blo d [|j] H; simpl; [lia | apply H]. Qed.

Lemma row_range_b : forall js i blo bhi j2len newj2len best,
  bounded_b blo j2len -> bounded_b blo newj2len -> in_range_b blo bhi best ->
  bounded_b blo (fst (row i blo bhi j2len js newj2len best))
  /\ in_range_b blo bhi (snd (row i blo bhi j2len js newj2len best)).
Proof.
  induction js as [|j js IH]; intros i blo bhi j2len newj2len best B N R;
    cbn [row]; auto.
  destruct (Nat.ltb_spec j blo); [now apply IH|].
  destruct (Nat.leb_spec bhi j); [auto|].
  assert (K := bounded_b_pred j B).
  apply IH; auto.
  - intros j'. cbn [j2len_get]. destruct (Nat.eqb_spec j j'); [subst; lia | apply N].
  - destruct (size best <? j2len_get_pred j2len j + 1); auto.
    unfold in_range_b. cbn [fst snd size]. lia.
Qed.

Lemma rows_range_b : forall a b2j m i blo bhi j2len best,
  bounded_b blo j2len -> in_range_b blo bhi best ->
  in_range_b blo bhi (rows a b2j m i blo bhi j2len best).
Proof.
  induction m as [|m IH]; intros i blo bhi j2len best B R; cbn [rows]; auto.
  set (js := match nth_error a i with
             | Some elt => b2j_get b2j elt
             | None => []
             end).
  destruct (@row_range_b js i blo bhi j2len [] best) as [N R']; auto.
  - intros j. cbn [j2len_get]. lia.
  - destruct (row i blo bhi j2len js [] best) as [newj2len best'].
    now apply IH.
Qed.

Lemma extend_left_range_b : forall a b junk alo blo besti bestj bestsize hi,
  in_range_b blo hi (besti, bestj, bestsize) ->
  in_range_b blo hi (extend_left a b junk alo blo besti bestj bestsize).
Proof.
  induction besti as [|besti IH]; intros bestj bestsize hi R; cbn [extend_left]; auto.
  destruct (alo <? S besti); cbn [andb]; auto.
  destruct (Nat.ltb_spec blo bestj); cbn [andb]; auto.
  destruct (Bool.eqb (isbjunk (nth_error b (bestj - 1))) junk
            && same (nth_error a besti) (nth_error b (bestj - 1))); auto.
  apply IH. unfold in_range_b in *. cbn [fst snd size] in *. lia.
Qed.

Lemma extend_right_range_b : forall a b fuel junk ahi blo bhi besti bestj bestsize,
  in_range_b blo bhi (besti, bestj, bestsize) ->
  in_range_b blo bhi (extend_right a b fuel junk ahi bhi besti bestj bestsize).
Proof.
  induction fuel as [|fuel IH]; intros junk ahi blo bhi besti bestj bestsize R;
    cbn [extend_right]; auto.
  destruct (besti + bestsize <? ahi); cbn [andb]; auto.
  destruct (Nat.ltb_spec (bestj + bestsize) bhi); cbn [andb]; auto.
  destruct (Bool.eqb (isbjunk (nth_error b (bestj + bestsize))) junk
            && same (nth_error a (besti + bestsize))
                    (nth_error b (bestj + bestsize))); auto.
  apply IH. unfold in_range_b in *. cbn [fst snd size] in *. lia.
Qed.

Lemma extend_range_b : forall a b junk alo ahi blo bhi best,
  in_range_b blo bhi best ->
  in_range_b blo bhi (extend a b junk alo ahi blo bhi best).
Proof.
  intros a b junk alo ahi blo bhi [[besti bestj] bestsize] R. unfold extend.
  assert (L := @extend_left_range_b a b junk alo blo besti bestj bestsize bhi R).
  destruct (extend_left a b junk alo blo besti bestj bestsize) as [[i j] k].
  now apply extend_right_range_b.
Qed.

Lemma find_longest_match_range_b : forall a b b2j alo ahi blo bhi,
  blo <= bhi ->
  in_range_b blo bhi (find_longest_match a b b2j alo ahi blo bhi).
Proof.
  intros a b b2j alo ahi blo bhi H. unfold find_longest_match.
  do 2 apply extend_range_b. apply rows_range_b.
  - intros j. cbn [j2len_get]. lia.
  - unfold in_range_b. cbn [fst snd size]. lia.
Qed.

(** The room the ranges of a queue leave in [a] and in [b]. *)
Fixpoint room_a (queue : list (nat * nat * nat * nat)) : nat :=
  match queue with
  | [] => 0
  | (alo, ahi, _, _) :: tl => (ahi - alo) + room_a tl
  end.

Fixpoint room_b (queue : list (nat * nat * nat * nat)) : nat :=
  match queue with
  | [] => 0
  | (_, _, blo, bhi) :: tl => (bhi - blo) + room_b tl
  end.

Definition ordered_b (queue : list (nat * nat * nat * nat)) : Prop :=
  Forall (fun r => snd (fst r) <= snd r) queue.

Lemma blocks_loop_total : forall a b b2j fuel queue blocks,
  ordered queue -> ordered_b queue ->
  total (blocks_loop a b b2j fuel queue blocks) <= total blocks + room_a queue
  /\ total (blocks_loop a b b2j fuel queue blocks) <= total blocks + room_b queue.
Proof.
  induction fuel as [|fuel IH]; intros queue blocks O Ob; cbn [blocks_loop].
  - lia.
  - destruct queue as [|[[[alo ahi] blo] bhi] tl]; [cbn [room_a room_b]; lia|].
    inversion O as [|? ? Hr Otl]; subst. inversion Ob as [|? ? Hrb Obtl]; subst.
    simpl in Hr, Hrb.
    assert (R := @find_longest_match_range a b b2j alo ahi blo bhi Hr).
    assert (Rb := @find_longest_match_range_b a b b2j alo ahi blo bhi Hrb).
    destruct (find_longest_match a b b2j alo ahi blo bhi) as [[i j] k].
    unfold in_range in R. unfold in_range_b in Rb. simpl in R, Rb.
    cbn [room_a room_b].
    destruct (Nat.ltb_spec 0 k).
    + destruct ((alo <? i) && (blo <? j)), ((i + k <? ahi) && (j + k <? bhi));
        match goal with
        | |- context [blocks_loop a b b2j fuel ?q ?bl] =>
            destruct (IH q bl) as [I1 I2];
              [repeat constructor; simpl; auto; lia
              |repeat constructor; simpl; auto; lia
              |rewrite total_app, total_cons in I1, I2;
               cbn [room_a room_b total fold_left size snd] in I1, I2; lia]
        end.
    + destruct (IH tl blocks Otl Obtl). lia.
Qed.

Lemma total_insert_block : forall x l, total (insert_block x l) = size x + total l.
Proof.
  induction l as [|y l IH]; cbn [insert_block]; [apply total_cons|].
  destruct (block_leb x y); rewrite !total_cons; [reflexivity|].
  rewrite IH. lia.
Qed.

Lemma total_sort_blocks : forall l, total (sort_blocks l) = total l.
Proof.
  induction l as [|x l IH]; [reflexivity|].
  cbn [sort_blocks fold_right]. fold (sort_blocks l).
  now rewrite total_insert_block, total_cons, IH.
Qed.

Lemma total_collapse : forall l st,
  size (fst (fold_left collapse_step l st)) + total (snd (fold_left collapse_step l st))
  = size (fst st) + total (snd st) + total l.
Proof.
  induction l as [|x2 l IH]; intros st; cbn [fold_left].
  - cbn. lia.
  - rewrite IH, total_cons. destruct st as [[[i1 j1] k1] non_adjacent].
    destruct x2 as [[i2 j2] k2]. cbn [collapse_step].
    destruct ((i1 + k1 =? i2) && (j1 + k1 =? j2)); cbn [fst snd size]; [lia|].
    destruct (Nat.ltb_spec 0 k1); [|lia].
    rewrite total_app, total_cons. cbn [size snd]. change (total []) with 0. lia.
Qed.

(** The matches are the sizes of the blocks of the loop. *)
Lemma matches_total : forall a b,
  matches a b
  = total (blocks_loop a b (chain_b b) (2 * length a + 1)
                       [(0, length a, 0, length b)] []).
Proof.
  intros a b. change (matches a b) with (total (get_matching_blocks a b)).
  unfold get_matching_blocks.
  set (l := blocks_loop a b (chain_b b) (2 * length a + 1) _ []).
  assert (C := total_collapse (sort_blocks l) ((0, 0, 0), [])).
  rewrite total_sort_blocks in C.
  destruct (fold_left collapse_step (sort_blocks l) ((0, 0, 0), []))
    as [[[i1 j1] k1] non_adjacent].
  cbn [fst snd size] in C. change (total []) with 0 in C.
  rewrite total_app, total_cons. cbn [size snd]. change (total []) with 0.
  destruct (Nat.ltb_spec 0 k1).
  - rewrite total_app, total_cons. cbn [size snd]. change (total []) with 0. lia.
  - lia.
Qed.

(** No more matches than either sequence has elements. *)
Lemma matches_le : forall a b,
  matches a b <= length a /\ matches a b <= length b.
Proof.
  intros a b. rewrite matches_total.
  destruct (@blocks_loop_total a b (chain_b b) (2 * length a + 1)
              [(0, length a, 0, length b)] []) as [H1 H2].
  - repeat constructor. simpl. lia.
  - repeat constructor. simpl. lia.
  - cbn [room_a room_b total fold_left] in H1, H2. lia.
Qed.

Lemma calculate_ratio_range : forall m len,
  2 * m <= len -> (0 <= calculate_ratio m len)%Q /\ (calculate_ratio m len <= 1)%Q.
Proof.
  intros m len H. unfold calculate_ratio.
  destruct (Nat.ltb_spec 0 len) as [L|L].
  - unfold Qle. cbn [Qnum Qden]. rewrite <- positive_nat_Z, Nat2Pos.id by lia.
    split; lia.
  - split; unfold Qle; simpl; lia.
Qed.

(** The ratio is at most twice the shorter length over the sum of the
    lengths. *)
Lemma calculate_ratio_le : forall m len n d,
  0 < d -> 0 < len -> m * d * 2 <= n * len ->
  (calculate_ratio m len <= Qmake (Z.of_nat n) (Pos.of_nat d))%Q.
Proof.
  intros m len n d Hd L H. unfold calculate_ratio.
  destruct (Nat.ltb_spec 0 len); [|lia].
  unfold Qle. cbn [Qnum Qden]. rewrite <- !positive_nat_Z, !Nat2Pos.id by lia.
  rewrite <- !Nat2Z.inj_mul. apply Nat2Z.inj_le. lia.
Qed.

End DifflibBounds.

(** X21: the similarity ratio of two strings lies between 0 and 1, and
    the matched characters are no more than either string has. *)
Theorem ratio_between_zero_and_one : forall a b : str,
  (0 <= Difflib.ratio a b)%Q /\ (Difflib.ratio a b <= 1)%Q
  /\ Difflib.matches a b <= Nat.min (length a) (length b).
Proof.
  intros a b. destruct (DifflibBounds.matches_le a b) as [Ha Hb].
  destruct (@DifflibBounds.calculate_ratio_range
              (Difflib.matches a b) (length a + length b)) as [H0 H1]; [lia|].
  unfold Difflib.ratio. repeat split; auto. lia.
Qed.

(** X22: titles of unlike length never match: when 40 times the shorter
    of the two normalized lengths is at most 17 times their sum, the
    similarity cannot exceed 0.85 and the candidate is skipped, whatever
    the titles hold. *)
Theorem titles_of_unlike_length_never_match :
  forall (input year : str) (kv : list (str * json)) (t : str),
    title_text (JObj kv) = Some t ->
    0 < length (clean_text_for_comparison t) + length input ->
    40 * Nat.min (length (clean_text_for_comparison t)) (length input)
    <= 17 * (length (clean_text_for_comparison t) + length input) ->
    examine input year (JObj kv) = Ok Continue.
Proof.
  intros input year kv t T Hpos H.
  rewrite (examine_titled input year _ T).
  replace (above_threshold (similarity_to input t)) with false; [reflexivity|].
  symmetry. unfold above_threshold. apply negb_false_iff, Qle_bool_iff.
  unfold similarity_to, Difflib.ratio.
  destruct (DifflibBounds.matches_le (clean_text_for_comparison t) input) as [Ha Hb].
  apply (@DifflibBounds.calculate_ratio_le _ _ 85 100); lia.
Qed.

Lemma titles_of_unlike_length_never_match_witness :
  examine "a study of graphs" "" (JObj Examples.far_fields) = Ok Continue.
Proof.
  apply (@titles_of_unlike_length_never_match
           "a study of graphs" "" Examples.far_fields "A Study of Graph Theory").
  - reflexivity.
  - vm_compute. lia.
  - vm_compute. lia.
Defined.

(** X23: a response whose status is not 200 gives the empty string
    without a warning; its body is not read. *)
Theorem non_success_status_is_silent :
  forall (requests_get : str -> params -> reply) (title authors year : str)
         (status_code : Z) (body : option json),
    requests_get base_url (search_params (clean_title_of title))
    = Response status_code body ->
    status_code <> 200%Z ->
    search_crossref_doi requests_get title authors year = (JStr "", []).
Proof.
  intros requests_get title authors year status_code body Hget Hs.
  rewrite search_caught. unfold search_body. rewrite Hget.
  destruct (Z.eqb_spec status_code 200); [contradiction | reflexivity].
Qed.

Lemma non_success_status_is_silent_witness :
  search_crossref_doi (fun _ _ => Response 503 None) "A Study of Graphs" "" "2020"
  = (JStr "", []).
Proof.
  apply (@non_success_status_is_silent
           (fun _ _ => Response 503 None) "A Study of Graphs" "" "2020" 503 None).
  - reflexivity.
  - discriminate.
Defined.

(** X24: a 200 response whose body is an object without [message], or
    whose [message] is an object without [items], gives the empty string
    and the warning of a KeyError. *)
Theorem response_without_items_warns :
  forall (requests_get : str -> params -> reply) (title authors year : str)
         (kv : list (str * json)),
    requests_get base_url (search_params (clean_title_of title))
    = Response 200 (Some (JObj kv)) ->
    lookup "message" kv = None
    \/ (exists m, lookup "message" kv = Some (JObj m) /\ lookup "items" m = None) ->
    search_crossref_doi requests_get title authors year
    = (JStr "", [ErrorSearchingDOI KeyError]).
Proof.
  intros requests_get title authors year kv Hget H.
  rewrite search_caught. unfold search_body. rewrite Hget.
  cbn [Z.eqb Pos.eqb response_json bind getitem].
  destruct H as [H|(m & Hm & Hi)].
  - now rewrite H.
  - rewrite Hm. cbn [bind getitem]. now rewrite Hi.
Qed.

Lemma response_without_items_warns_witness :
  search_crossref_doi
    (fun _ _ => Response 200 (Some (JObj [(lit "message", JObj [(lit "total", JInt 0)])])))
    "A Study of Graphs" "" ""
  = (JStr "", [ErrorSearchingDOI KeyError]).
Proof.
  apply (@response_without_items_warns
           (fun _ _ => Response 200
                         (Some (JObj [(lit "message", JObj [(lit "total", JInt 0)])])))
           "A Study of Graphs" "" "" [(lit "message", JObj [(lit "total", JInt 0)])]).
  - reflexivity.
  - right. exists [(lit "total", JInt 0)]. split; reflexivity.
Defined.

(** X25: a 200 response whose [items] count as false (an empty list, but
    also null, 0 or an empty string) gives the empty string without a
    warning and without looking at the title. *)
Theorem empty_items_is_silent :
  forall (requests_get : str -> params -> reply) (title authors year : str)
         (results message items : json),
    requests_get base_url (search_params (clean_title_of title))
    = Response 200 (Some results) ->
    getitem results "message" = Ok message ->
    getitem message "items" = Ok items ->
    truthy items = false ->
    search_crossref_doi requests_get title authors year = (JStr "", []).
Proof.
  intros requests_get title authors year results message items Hget Hm Hi Ht.
  rewrite search_caught. unfold search_body. rewrite Hget.
  cbn [Z.eqb Pos.eqb response_json bind]. rewrite Hm. cbn [bind].
  rewrite Hi. cbn [bind]. now rewrite Ht.
Qed.

Lemma empty_items_is_silent_witness :
  search_crossref_doi (fun _ _ => Response 200 (Some (Examples.body_of JNull)))
                      "A Study of Graphs" "" ""
  = (JStr "", []).
Proof.
  apply (@empty_items_is_silent
           (fun _ _ => Response 200 (Some (Examples.body_of JNull)))
           "A Study of Graphs" "" ""
           (Examples.body_of JNull) (JObj [(lit "items", JNull)]) JNull);
    reflexivity.
Defined.

(** X26: the resolver sees its title only stripped and with newlines as
    spaces, and does not use the authors: two calls whose titles have the
    same such form, with the same year, give the same answer and the same
    warnings. *)
Theorem resolver_ignores_authors_and_outer_space :
  forall (requests_get : str -> params -> reply)
         (title1 title2 authors1 authors2 year : str),
    clean_title_of title1 = clean_title_of title2 ->
    search_crossref_doi requests_get title1 authors1 year
    = search_crossref_doi requests_get title2 authors2 year.
Proof.
  intros requests_get title1 title2 authors1 authors2 year H.
  rewrite !search_caught. now rewrite H.
Qed.

Lemma resolver_ignores_authors_and_outer_space_witness :
  search_crossref_doi Examples.registry
    (lit "  A Study" ++ newline :: lit "of Graphs ") "Smith" "2020"
  = search_crossref_doi Examples.registry "A Study of Graphs" "" "2020".
Proof.
  apply (@resolver_ignores_authors_and_outer_space
           Examples.registry (lit "  A Study" ++ newline :: lit "of Graphs ")
           "A Study of Graphs" "Smith" "" "2020").
  vm_compute. reflexivity.
Defined.
